(** * ordered-set: StableSet and OrderedSet

    A shallow embedding of [src/ordered_set/__init__.py].

    - Python [int]s are [Z]; [len] returns a [Z].
    - A [dict] is an association list in insertion order (CPython >= 3.6
      keeps that order and [__iter__], [list(self)], [popitem] depend on it).
    - A method that mutates [self] or raises is a computation in a small
      state-and-exception monad over the object's slots: the state that an
      exception leaves behind is part of the result.
    - Elements are values of a type [T] with decidable equality (the code
      needs them hashable and comparable with [==]). *)

From Stdlib Require Import ZArith Lia.
From stdpp Require Import base tactics option list.

(** ** Exceptions and the state-and-exception monad *)

Inductive exn := KeyError | IndexError | ValueError | TypeError | StopIteration.

Inductive result (A : Type) :=
  | Ok (a : A)
  | Raise (e : exn).
Arguments Ok {A} a.
Arguments Raise {A} e.

Definition M (S A : Type) : Type := S → result A * S.

Definition ret {S A} (a : A) : M S A := λ s, (Ok a, s).
Definition raise {S A} (e : exn) : M S A := λ s, (Raise e, s).
Definition bind {S A B} (m : M S A) (k : A → M S B) : M S B :=
  λ s, match m s with
       | (Ok a, s') => k a s'
       | (Raise e, s') => (Raise e, s')
       end.
Definition get {S} : M S S := λ s, (Ok s, s).
Definition put {S} (s : S) : M S unit := λ _, (Ok tt, s).
Definition modify {S} (f : S → S) : M S unit := λ s, (Ok tt, f s).
Definition lift {S A} (r : result A) : M S A := λ s, (r, s).

Declare Scope py_scope.
Delimit Scope py_scope with py.
Notation "'let*' x ':=' m 'in' k" := (bind m (λ x, k))
  (at level 10, x name, m at level 100, k at level 200) : py_scope.
Notation "'do' m 'in' k" := (bind m (λ _, k))
  (at level 10, m at level 100, k at level 200) : py_scope.

(** [for x in l: body(x)], stopping at the first exception. *)
Fixpoint for_ {S A} (l : list A) (body : A → M S unit) : M S unit :=
  match l with
  | [] => ret tt
  | x :: l' => (do body x in for_ l' body)%py
  end.

(** ** Built-in lists *)

Section builtin_list.
Context {A : Type}.

Definition len (l : list A) : Z := Z.of_nat (length l).

(** The position a list index denotes: negative indices count from the end. *)
Definition norm_index (l : list A) (i : Z) : option nat :=
  if (0 <=? i)%Z then
    if (i <? len l)%Z then Some (Z.to_nat i) else None
  else
    if (0 <=? len l + i)%Z then Some (Z.to_nat (len l + i)) else None.

(** [l[i]] *)
Definition list_getitem (l : list A) (i : Z) : result A :=
  match norm_index l i with
  | Some n => match l !! n with Some x => Ok x | None => Raise IndexError end
  | None => Raise IndexError
  end.

(** [del l[i]] *)
Definition list_delitem (l : list A) (i : Z) : result (list A) :=
  match norm_index l i with
  | Some n => Ok (delete n l)
  | None => Raise IndexError
  end.

(** [sys.maxsize] of a 64-bit CPython *)
Definition sys_maxsize : Z := (2 ^ 63 - 1)%Z.

(** [next(itertools.islice(l, start, stop))]: [islice] accepts only
    [0 <= x <= sys.maxsize]; [next] on an exhausted iterator raises
    [StopIteration]. *)
Definition islice_next (l : list A) (start stop : Z) : result A :=
  if ((start <? 0) || (sys_maxsize <? start) ||
      (stop <? 0) || (sys_maxsize <? stop))%Z
  then Raise ValueError
  else if (start <? stop)%Z then
    match l !! Z.to_nat start with
    | Some x => Ok x
    | None => Raise StopIteration
    end
  else Raise StopIteration.

(** [next(iter(l))] *)
Definition iter_next (l : list A) : result A :=
  match l with
  | x :: _ => Ok x
  | [] => Raise StopIteration
  end.
End builtin_list.

(** ** Built-in dicts, in insertion order *)

Section builtin_dict.
Context {K V : Type} `{EqDecision K}.

Definition dict : Type := list (K * V).

Definition dict_keys (d : dict) : list K := d.*1.

(** [d.get(k)] *)
Fixpoint dict_get (k : K) (d : dict) : option V :=
  match d with
  | [] => None
  | (k', v) :: d' => if decide (k' = k) then Some v else dict_get k d'
  end.

(** [k in d] *)
Definition dict_contains (k : K) (d : dict) : bool :=
  match dict_get k d with Some _ => true | None => false end.

(** [d[k] = v]: an existing key keeps its place, a new one goes last. *)
Fixpoint dict_setitem (k : K) (v : V) (d : dict) : dict :=
  match d with
  | [] => [(k, v)]
  | (k', v') :: d' =>
      if decide (k' = k) then (k', v) :: d' else (k', v') :: dict_setitem k v d'
  end.

(** [d] without the entry of [k] *)
Fixpoint dict_remove (k : K) (d : dict) : dict :=
  match d with
  | [] => []
  | (k', v) :: d' => if decide (k' = k) then d' else (k', v) :: dict_remove k d'
  end.

(** [del d[k]] *)
Definition dict_delitem (k : K) (d : dict) : result dict :=
  if dict_contains k d then Ok (dict_remove k d) else Raise KeyError.

(** [d.popitem()]: the last entry *)
Definition dict_popitem (d : dict) : result ((K * V) * dict) :=
  match last d with
  | Some kv => Ok (kv, removelast d)
  | None => Raise KeyError
  end.

(** [dict.fromkeys(l)] with value [v] *)
Definition dict_fromkeys (l : list K) (v : V) : dict :=
  foldl (λ d k, dict_setitem k v d) [] l.

(** [d.update(other)] *)
Definition dict_update (d other : dict) : dict :=
  foldl (λ d kv, dict_setitem kv.1 kv.2 d) d other.

(** A list of entries is a dict when no key occurs twice. *)
Definition dict_wf (d : dict) : Prop := NoDup (dict_keys d).
End builtin_dict.
Arguments dict K V : clear implicits.

(** What a caller may pass where the code expects an iterable: an
    iterable, given by the elements it yields in order, or an object that
    is not iterable (iterating it raises [TypeError]). *)
Inductive arg (T : Type) :=
  | Iterable (l : list T)
  | NotIterable.
Arguments Iterable {T} l.
Arguments NotIterable {T}.

(** ** class StableSet *)

Module StableSet.
Section with_elements.
Context {T : Type} `{EqDecision T}.
Local Open Scope py_scope.

(** [__slots__ = ("_map",)]: the keys are the elements, every value is
    [None]. *)
Record t := mk { _map : dict T unit }.

(** [cls(initial)]: [dict.fromkeys(initial) if initial else {}] *)
Definition __init__ (initial : option (list T)) : t :=
  match initial with
  | None | Some [] => mk []
  | Some l => mk (dict_fromkeys l tt)
  end.

Definition __len__ (self : t) : Z := len (_map self).

Definition __contains__ (self : t) (key : T) : bool :=
  dict_contains key (_map self).

Definition __iter__ (self : t) : list T := dict_keys (_map self).

(** [self[index]] for an [int] index *)
Definition __getitem__ (self : t) (index : Z) : result T :=
  match islice_next (dict_keys (_map self)) index (index + 1) with
  | Raise StopIteration => Raise IndexError
  | r => r
  end.

Definition add (key : T) : M t Z :=
  do modify (λ self, mk (dict_setitem key tt (_map self))) in
  let* self := get in
  ret (len (_map self) - 1)%Z.

Definition update (sequence : arg T) : M t Z :=
  match sequence with
  | Iterable l =>
      let other_map := dict_fromkeys l tt in
      do modify (λ self, mk (dict_update (_map self) other_map)) in
      let* self := get in
      ret (len (_map self) - 1)%Z
  | NotIterable => raise ValueError
  end.

(** [index(key)] for a key that is not itself iterated *)
Definition index (self : t) (key : T) : result Z :=
  match list_find (λ item, item = key) (dict_keys (_map self)) with
  | Some (i, _) => Ok (Z.of_nat i)
  | None => Raise KeyError
  end.

Definition pop (index : Z) : M t T :=
  let* self := get in
  match _map self with
  | [] => raise KeyError
  | _ =>
      if decide (index = -1)%Z then
        let* kv := lift (dict_popitem (_map self)) in
        do put (mk kv.2) in
        ret kv.1.1
      else
        let* elem :=
          lift (if decide (index = 0)%Z
                then iter_next (dict_keys (_map self))
                else islice_next (dict_keys (_map self)) index (index + 1)) in
        let* m := lift (dict_delitem elem (_map self)) in
        do put (mk m) in
        ret elem
  end.

Definition popitem (last : bool) : M t T :=
  let* self := get in
  match _map self with
  | [] => raise KeyError
  | _ =>
      if last then
        let* kv := lift (dict_popitem (_map self)) in
        do put (mk kv.2) in
        ret kv.1.1
      else
        let* elem := lift (iter_next (dict_keys (_map self))) in
        let* m := lift (dict_delitem elem (_map self)) in
        do put (mk m) in
        ret elem
  end.

(** [self._map.pop(key, None)] *)
Definition discard (key : T) : M t unit :=
  modify (λ self, mk (dict_remove key (_map self))).

Definition clear : M t unit := put (mk []).

(** [self._map.pop(key)], which raises [KeyError] for a missing key, then
    [self._map[key] = None]. *)
Definition move_to_end (key : T) : M t unit :=
  let* self := get in
  let* m := lift (dict_delitem key (_map self)) in
  put (mk (dict_setitem key tt m)).

(** [sets] holds, for each argument, what iterating it yields; the set
    [items_to_remove] is used for membership tests only. *)
Definition difference_update (sets : list (list T)) : M t unit :=
  let items_to_remove := concat sets in
  modify (λ self,
    mk (dict_fromkeys
          (filter (λ item, item ∉ items_to_remove) (dict_keys (_map self))) tt)).

Definition intersection_update (other : list T) : M t unit :=
  modify (λ self,
    mk (dict_fromkeys (filter (λ item, item ∈ other) (dict_keys (_map self))) tt)).

Definition symmetric_difference_update (other : list T) : M t unit :=
  let* self := get in
  let items_to_add := filter (λ item, __contains__ self item = false) other in
  let items_to_remove := other in
  put (mk (dict_fromkeys
             (filter (λ item, item ∉ items_to_remove) (dict_keys (_map self))
              ++ items_to_add) tt)).
End with_elements.
Arguments t T : clear implicits.
End StableSet.

(** ** class OrderedSet(StableSet) *)

Module OrderedSet.
Section with_elements.
Context {T : Type} `{EqDecision T}.
Local Open Scope py_scope.

(** [__slots__ = ("_items",)] on top of the inherited [_map], which here
    maps each element to its position in [_items]. *)
Record t := mk { _items : list T; _map : dict T Z }.

Definition set_items (items : list T) : M t unit :=
  modify (λ self, mk items (_map self)).
Definition set_map (m : dict T Z) : M t unit :=
  modify (λ self, mk (_items self) m).

(** Inherited from StableSet: they read [_map]. *)
Definition __len__ (self : t) : Z := len (_map self).
Definition __contains__ (self : t) (key : T) : bool :=
  dict_contains key (_map self).
Definition __iter__ (self : t) : list T := dict_keys (_map self).

(** [self[index]] for an [int] index *)
Definition __getitem__ (self : t) (index : Z) : result T :=
  list_getitem (_items self) index.

Definition add (key : T) : M t Z :=
  let* self := get in
  do (if dict_contains key (_map self) then ret tt
      else
        do set_map (dict_setitem key (len (_items self)) (_map self)) in
        set_items (_items self ++ [key])) in
  let* self := get in
  match dict_get key (_map self) with
  | Some i => ret i
  | None => raise KeyError
  end.

(** The loop of [update], with [item_index] as the loop-carried variable. *)
Fixpoint update_loop (l : list T) (item_index : Z) : M t Z :=
  match l with
  | [] => ret item_index
  | item :: l' => let* item_index := add item in update_loop l' item_index
  end.

Definition update (sequence : arg T) : M t Z :=
  match sequence with
  | Iterable l => update_loop l 0
  | NotIterable => raise ValueError
  end.

(** [cls(initial)]: [self |= initial], and [MutableSet.__ior__] adds the
    values one by one. *)
Definition __init__ (initial : option (list T)) : t :=
  match initial with
  | None => mk [] []
  | Some l => (for_ l (λ value, do add value in ret tt) (mk [] [])).2
  end.

(** [index(key)] for a key that is not itself iterated *)
Definition index (self : t) (key : T) : result Z :=
  match dict_get key (_map self) with
  | Some i => Ok i
  | None => Raise KeyError
  end.

(** The statements [pop] and [popitem] share once [index] is known. *)
Definition pop_at (index : Z) : M t T :=
  let* self := get in
  let* elem := lift (list_getitem (_items self) index) in
  let* items := lift (list_delitem (_items self) index) in
  do set_items items in
  let* m := lift (dict_delitem elem (_map self)) in
  do set_map m in
  ret elem.

Definition pop (index : Z) : M t T :=
  let* self := get in
  match _items self with
  | [] => raise KeyError
  | _ => pop_at index
  end.

Definition popitem (last : bool) : M t T :=
  let* self := get in
  match _items self with
  | [] => raise KeyError
  | _ => pop_at (if last then -1 else 0)%Z
  end.

Definition discard (key : T) : M t unit :=
  let* self := get in
  if __contains__ self key then
    let* i := lift (index self key) in
    let* items := lift (list_delitem (_items self) i) in
    do set_items items in
    let* m := lift (dict_delitem key (_map self)) in
    do set_map m in
    (* [self._map.items()] holds each key once and an assignment changes
       only the entry being visited, so the loop sees the values [m] has
       on entry. *)
    for_ m (λ kv, if (kv.2 >=? i)%Z
                  then modify (λ self, mk (_items self)
                                          (dict_setitem kv.1 (kv.2 - 1)%Z (_map self)))
                  else ret tt)
  else ret tt.

(** [self == other] for [other] a StableSet or OrderedSet (a Sequence),
    given by what iterating it yields and by its [len]. *)
Definition __eq__ (self : t) (other_len : Z) (other : list T) : bool :=
  bool_decide (__len__ self = other_len) && bool_decide (_items self = other).

Definition clear : M t unit :=
  do set_items [] in set_map [].

Definition move_to_end (key : T) : M t unit :=
  let* self := get in
  if __contains__ self key then
    do discard key in
    do add key in
    ret tt
  else raise KeyError.

(** [self._items = items] and
    [self._map = {item: idx for (idx, item) in enumerate(items)}]: the
    comprehension assigns the entries one after the other. *)
Definition _update_items (items : list T) : M t unit :=
  do set_items items in
  set_map (dict_update [] (imap (λ idx item, (item, Z.of_nat idx)) items)).

Definition difference_update (sets : list (list T)) : M t unit :=
  let items_to_remove := concat sets in
  let* self := get in
  _update_items (filter (λ item, item ∉ items_to_remove) (_items self)).

Definition intersection_update (other : list T) : M t unit :=
  let* self := get in
  _update_items (filter (λ item, item ∈ other) (_items self)).

Definition symmetric_difference_update (other : list T) : M t unit :=
  let* self := get in
  let items_to_add := filter (λ item, __contains__ self item = false) other in
  let items_to_remove := other in
  _update_items (filter (λ item, item ∉ items_to_remove) (_items self)
                 ++ items_to_add).
End with_elements.
Arguments t T : clear implicits.
End OrderedSet.

(** ** Objects of the three classes, and the methods they inherit

    Methods of StableSet that StableSetEq and OrderedSet inherit unchanged
    reach the object through [type(self)], [__iter__], [__len__] and
    [__getitem__]; these dispatch on the class of the object.  StableSetEq
    overrides comparison operators only. *)

Inductive klass := cls_StableSet | cls_StableSetEq | cls_OrderedSet.

Section objects.
Context {T : Type} `{EqDecision T}.

Inductive object :=
  | Stable (eq_variant : bool) (s : StableSet.t T)
  | Ordered (o : OrderedSet.t T).

Definition type (self : object) : klass :=
  match self with
  | Stable false _ => cls_StableSet
  | Stable true _ => cls_StableSetEq
  | Ordered _ => cls_OrderedSet
  end.

(** [cls(initial)] *)
Definition new (cls : klass) (initial : option (list T)) : object :=
  match cls with
  | cls_StableSet => Stable false (StableSet.__init__ initial)
  | cls_StableSetEq => Stable true (StableSet.__init__ initial)
  | cls_OrderedSet => Ordered (OrderedSet.__init__ initial)
  end.

Definition __len__ (self : object) : Z :=
  match self with
  | Stable _ s => StableSet.__len__ s
  | Ordered o => OrderedSet.__len__ o
  end.

(** [list(self)] *)
Definition __iter__ (self : object) : list T :=
  match self with
  | Stable _ s => StableSet.__iter__ s
  | Ordered o => OrderedSet.__iter__ o
  end.

Definition __getitem__ (self : object) (index : Z) : result T :=
  match self with
  | Stable _ s => StableSet.__getitem__ s index
  | Ordered o => OrderedSet.__getitem__ o index
  end.

(** [self.__class__(self)] *)
Definition copy (self : object) : object :=
  new (type self) (Some (__iter__ self)).

(** [sets] holds, for each argument, what iterating it yields. *)
Definition union (self : object) (sets : list (list T)) : object :=
  new (type self) (Some (concat (__iter__ self :: sets))).

(** [set.union( *map(set, sets))] is used for membership tests only. *)
Definition difference (self : object) (sets : list (list T)) : object :=
  new (type self)
      (Some (match sets with
             | [] => __iter__ self
             | _ => filter (λ item, item ∉ concat sets) (__iter__ self)
             end)).

Definition symmetric_difference (self : object) (other : list T) : object :=
  let cls := type self in
  let diff1 := difference (new cls (Some (__iter__ self))) [other] in
  let diff2 := difference (new cls (Some other)) [__iter__ self] in
  union diff1 [__iter__ diff2].

(** The pickled state: the tuple [(None,)] or a list of the elements. *)
Inductive pickle_state :=
  | NoneTuple
  | ItemList (l : list T).

Definition __getstate__ (self : object) : pickle_state :=
  if decide (__len__ self = 0%Z) then NoneTuple else ItemList (__iter__ self).

(** [self.__init__(...)] initialises the receiver again, whose class
    stays what it is. *)
Definition __setstate__ (self : object) (state : pickle_state) : object :=
  match state with
  | NoneTuple => new (type self) (Some [])
  | ItemList l => new (type self) (Some l)
  end.

(** An argument typed [StableSetLike]: a container or a plain sequence. *)
Inductive setlike :=
  | Obj (o : object)
  | Seq (l : list T).

Definition sl_len (a : setlike) : Z :=
  match a with Obj o => __len__ o | Seq l => len l end.
Definition sl_iter (a : setlike) : list T :=
  match a with Obj o => __iter__ o | Seq l => l end.
Definition sl_getitem (a : setlike) (i : Z) : result T :=
  match a with Obj o => __getitem__ o i | Seq l => list_getitem l i end.

(** The loop of [isorderedsubset] over the rest of [other], from the
    current value of [i]. *)
Fixpoint isorderedsubset_loop (self : setlike) (self_len : Z)
    (other : list T) (i : Z) : result bool :=
  match other with
  | [] => Ok false
  | other_item :: other' =>
      match sl_getitem self i with
      | Raise e => Raise e
      | Ok x =>
          if decide (other_item = x) then
            if decide (i + 1 = self_len)%Z then Ok true
            else isorderedsubset_loop self self_len other' (i + 1)%Z
          else isorderedsubset_loop self self_len other' i
      end
  end.

Definition isorderedsubset (self other : setlike) : result bool :=
  if (sl_len self >? sl_len other)%Z then Ok false
  else isorderedsubset_loop self (sl_len self) (sl_iter other) 0%Z.

(** Object identity: the objects that exist, each at its address, which
    is its position in the heap. *)
Definition heap : Type := list object.

Definition __contains__ (self : object) (key : T) : bool :=
  match self with
  | Stable _ s => StableSet.__contains__ s key
  | Ordered o => OrderedSet.__contains__ o key
  end.

(** [set.intersection( *map(set, sets))] is used for membership tests only. *)
Definition intersection (self : object) (sets : list (list T)) : object :=
  new (type self)
      (Some (match sets with
             | [] => __iter__ self
             | _ => filter (λ item, Forall (λ s, item ∈ s) sets) (__iter__ self)
             end)).

(** [item in a] *)
Definition sl_contains (a : setlike) (item : T) : bool :=
  match a with
  | Obj o => __contains__ o item
  | Seq l => bool_decide (item ∈ l)
  end.

Definition issubset (self other : setlike) : bool :=
  if (sl_len self >? sl_len other)%Z then false
  else forallb (λ item, sl_contains other item) (sl_iter self).

Definition issuperset (self other : setlike) : bool :=
  if (sl_len self <? sl_len other)%Z then false
  else forallb (λ item, sl_contains self item) (sl_iter other).

Definition isorderedsuperset (self other : setlike) : result bool :=
  isorderedsubset other self.

(** The loop of [isprefix] over [zip(self, other)]. *)
Fixpoint isprefix_loop (self other : list T) : bool :=
  match self, other with
  | self_item :: self', other_item :: other' =>
      if decide (self_item = other_item) then isprefix_loop self' other'
      else false
  | _, _ => true
  end.

Definition isprefix (self other : setlike) : bool :=
  if (sl_len self >? sl_len other)%Z then false
  else isprefix_loop (sl_iter self) (sl_iter other).

Definition ispostfix (self other : setlike) : bool :=
  isprefix other self.

(** The right operand of a binary operator: a container or a sequence, or
    an object that is not iterable. *)
Inductive operand :=
  | Operand (a : setlike)
  | NonIterable.

(** [other] after [if not isinstance(other, Set): other = cls(other)]: a
    container is a [Set] and stays, a sequence is converted. *)
Definition as_set (cls : klass) (a : setlike) : object :=
  match a with
  | Obj o => o
  | Seq l => new cls (Some l)
  end.

(** The operators return an object or [NotImplemented], which is [None]. *)
Definition __sub__ (self : object) (other : operand) : option object :=
  let cls := type self in
  match other with
  | NonIterable => None
  | Operand a =>
      let other := as_set cls a in
      Some (new cls (Some (filter (λ value, __contains__ other value = false)
                                  (__iter__ self))))
  end.

Definition __rsub__ (self : object) (other : operand) : option object :=
  let cls := type self in
  match other with
  | NonIterable => None
  | Operand a =>
      let other := as_set cls a in
      Some (new cls (Some (filter (λ value, __contains__ self value = false)
                                  (__iter__ other))))
  end.

Definition __or__ (self : object) (other : operand) : option object :=
  let cls := type self in
  match other with
  | NonIterable => None
  | Operand a => Some (new cls (Some (__iter__ self ++ sl_iter a)))
  end.

Definition __ror__ (self : object) (other : operand) : option object :=
  let cls := type self in
  match other with
  | NonIterable => None
  | Operand a => Some (new cls (Some (sl_iter a ++ __iter__ self)))
  end.

(** [other - self] for [self] a container: the [__sub__] of [other] when
    [other] is a container, and [self.__rsub__(other)] when [other] is a
    sequence, which has no [__sub__]. *)
Definition sub_from (a : setlike) (self : object) : option object :=
  match a with
  | Obj o => __sub__ o (Operand (Obj self))
  | Seq l => __rsub__ self (Operand (Seq l))
  end.

(** [(self - other) | (other - self)] *)
Definition __xor__ (self : object) (other : operand) : option object :=
  match other with
  | NonIterable => None
  | Operand a =>
      match __sub__ self other, sub_from a self with
      | Some d1, Some d2 => __or__ d1 (Operand (Obj d2))
      | _, _ => None
      end
  end.

(** [(other - self) | (self - other)] *)
Definition __rxor__ (self : object) (other : operand) : option object :=
  match other with
  | NonIterable => None
  | Operand a =>
      match sub_from a self, __sub__ self other with
      | Some d1, Some d2 => __or__ d1 (Operand (Obj d2))
      | _, _ => None
      end
  end.

(** [self.intersection(other)], where [set(other)] raises [TypeError] for
    an object that is not iterable. *)
Definition __and__ (self : object) (other : operand) : result object :=
  match other with
  | NonIterable => Raise TypeError
  | Operand a => Ok (intersection self [sl_iter a])
  end.
End objects.
Arguments object T : clear implicits.
Arguments pickle_state T : clear implicits.
Arguments setlike T : clear implicits.
Arguments operand T : clear implicits.
Arguments heap T : clear implicits.

(** ** Methods called through references

    Where identity matters ([this is other]) a value of the program is a
    reference, the address of an object in the heap, and a method reads
    its receiver through it.  A reference that holds no object does not
    occur in Python; reading through one gives [None]. *)

Module Ref.
Section with_elements.
Context {T : Type} `{EqDecision T}.

Definition R (A : Type) : Type := heap T → option (A * heap T).

(** [self.__class__] *)
Definition __class__ (self : nat) : R klass :=
  λ h, match h !! self with
       | Some o => Some (type o, h)
       | None => None
       end.

(** Iterating the object behind a reference, as a constructor does with
    its argument. *)
Definition iterate (initial : nat) : R (list T) :=
  λ h, match h !! initial with
       | Some o => Some (__iter__ o, h)
       | None => None
       end.

(** [cls(initial)] for [initial] a reference: calling a class creates an
    object at an address that holds none so far ([object.__new__]), runs
    [__init__] on it, which iterates [initial], and returns its reference. *)
Definition call (cls : klass) (initial : nat) : R nat :=
  λ h, match iterate initial h with
       | Some (items, h) => Some (length h, h ++ [new cls (Some items)])
       | None => None
       end.

(** [StableSet.copy], inherited by StableSetEq and OrderedSet:
    [return self.__class__(self)] *)
Definition copy (self : nat) : R nat :=
  λ h, match __class__ self h with
       | Some (cls, h) => call cls self h
       | None => None
       end.
End with_elements.
End Ref.

(** ** Vocabulary of the properties *)

Section vocabulary.
Context {T : Type} `{EqDecision T}.

(** A sequence with its duplicates dropped, each element staying where it
    occurs first. *)
Fixpoint first_occurrences (l : list T) : list T :=
  match l with
  | [] => []
  | x :: l' => x :: filter (λ y, y ≠ x) (first_occurrences l')
  end.

(** The keys of a dict after an assignment to the key [k]. *)
Definition add_key (acc : list T) (k : T) : list T :=
  if decide (k ∈ acc) then acc else acc ++ [k].

(** [enumerate(items)] as the entries [item: idx] of a dict *)
Definition enumerate (items : list T) : dict T Z :=
  imap (λ i x, (x, Z.of_nat i)) items.

(** [position_map[x] == i] if and only if [sequence[i] == x]. *)
Definition position_inv (self : OrderedSet.t T) : Prop :=
  dict_wf (OrderedSet._map self) ∧
  ∀ x i, dict_get x (OrderedSet._map self) = Some i ↔
         (0 ≤ i)%Z ∧ OrderedSet._items self !! Z.to_nat i = Some x.

(** The state every constructor call and rebuild of an OrderedSet
    produces: distinct items, each mapped to its position, the map in
    the order of the items. *)
Definition canonical (self : OrderedSet.t T) : Prop :=
  NoDup (OrderedSet._items self) ∧
  OrderedSet._map self = enumerate (OrderedSet._items self).

(** The states the methods are written for: a StableSet holds a dict,
    an OrderedSet is canonical. *)
Definition wf (self : object T) : Prop :=
  match self with
  | Stable _ s => dict_wf (StableSet._map s)
  | Ordered o => canonical o
  end.

(** A sequence of [add] and [discard] calls on one OrderedSet. *)
Inductive op :=
  | Add (key : T)
  | Discard (key : T).

Definition call (o : op) : M (OrderedSet.t T) unit :=
  match o with
  | Add key => (do OrderedSet.add key in ret tt)%py
  | Discard key => OrderedSet.discard key
  end.

Definition run (ops : list op) : M (OrderedSet.t T) unit := for_ ops call.
End vocabulary.
Arguments op T : clear implicits.

(** ** Dicts and lists *)

Section dict_facts.
Context {K V : Type} `{EqDecision K}.
Implicit Types (d : dict K V) (k : K) (v : V).

Lemma dict_get_None k d : dict_get k d = None ↔ k ∉ dict_keys d.
Proof.
  induction d as [|[k' v'] d IH]; simpl.
  - split; [intros _; apply not_elem_of_nil | done].
  - rewrite not_elem_of_cons. case_decide; subst.
    + split; [done | intros [? _]; done].
    + rewrite IH. intuition congruence.
Qed.

Lemma dict_get_Some_elem k v d : dict_get k d = Some v → (k, v) ∈ d.
Proof.
  induction d as [|[k' v'] d IH]; simpl; [done|].
  case_decide; subst.
  - intros [= ->]. left.
  - intros. right. auto.
Qed.

Lemma dict_contains_true k d : dict_contains k d = true ↔ k ∈ dict_keys d.
Proof.
  unfold dict_contains. destruct (dict_get k d) eqn:E.
  - split; [intros _ | done].
    destruct (decide (k ∈ dict_keys d)) as [|Hn]; [done|].
    apply dict_get_None in Hn. congruence.
  - apply dict_get_None in E. split; [done | intros; done].
Qed.

Lemma dict_contains_false k d : dict_contains k d = false ↔ k ∉ dict_keys d.
Proof.
  rewrite <- dict_contains_true. destruct (dict_contains k d); naive_solver.
Qed.

Lemma dict_get_app k d1 d2 :
  dict_get k (d1 ++ d2) =
  match dict_get k d1 with Some v => Some v | None => dict_get k d2 end.
Proof.
  induction d1 as [|[k' v'] d1 IH]; simpl; [done|]. by case_decide.
Qed.

Lemma dict_setitem_fresh k v d :
  k ∉ dict_keys d → dict_setitem k v d = d ++ [(k, v)].
Proof.
  induction d as [|[k' v'] d IH]; simpl; [done|].
  rewrite not_elem_of_cons. intros [Hne Hnin].
  case_decide; [congruence|]. by rewrite IH.
Qed.

Lemma dict_setitem_here k v v0 d1 d2 :
  k ∉ dict_keys d1 →
  dict_setitem k v (d1 ++ (k, v0) :: d2) = d1 ++ (k, v) :: d2.
Proof.
  induction d1 as [|[k' v'] d1 IH]; simpl.
  - intros _. by case_decide.
  - rewrite not_elem_of_cons. intros [Hne Hnin].
    case_decide; [congruence|]. by rewrite IH.
Qed.

Lemma dict_get_setitem k k' v d :
  dict_get k' (dict_setitem k v d) =
  if decide (k = k') then Some v else dict_get k' d.
Proof.
  induction d as [|[k0 v0] d IH]; simpl.
  - by repeat case_decide.
  - repeat (case_decide; simpl; subst); try congruence; try done;
      rewrite IH; by case_decide.
Qed.

Lemma dict_keys_remove_sublist k d :
  dict_keys (dict_remove k d) `sublist_of` dict_keys d.
Proof.
  induction d as [|[k' v'] d IH]; simpl; [done|].
  case_decide; simpl.
  - by apply sublist_cons.
  - by apply sublist_skip.
Qed.

Lemma dict_remove_wf k d : dict_wf d → dict_wf (dict_remove k d).
Proof. unfold dict_wf. intros Hd. eapply sublist_NoDup; [done | apply dict_keys_remove_sublist]. Qed.

Lemma dict_get_remove k k' d :
  dict_wf d →
  dict_get k' (dict_remove k d) = if decide (k = k') then None else dict_get k' d.
Proof.
  unfold dict_wf. induction d as [|[k0 v0] d IH]; simpl.
  - intros _. by case_decide.
  - rewrite NoDup_cons. intros [Hnin Hnd].
    destruct (decide (k0 = k)) as [->|Hne]; simpl.
    + destruct (decide (k = k')) as [->|Hne']; [by apply dict_get_None|done].
    + rewrite IH by done.
      destruct (decide (k0 = k')) as [->|Hne']; [by rewrite decide_False|done].
Qed.

Lemma dict_remove_absent k d : k ∉ dict_keys d → dict_remove k d = d.
Proof.
  induction d as [|[k' v'] d IH]; simpl; [done|].
  rewrite not_elem_of_cons. intros [Hne Hnin].
  case_decide; [congruence|]. by rewrite IH.
Qed.

Lemma dict_get_fmap (f : V → V) k d :
  dict_get k (prod_map id f <$> d) = f <$> dict_get k d.
Proof.
  induction d as [|[k' v'] d IH]; simpl; [done|]. by case_decide.
Qed.

Lemma dict_keys_fmap (f : V → V) d :
  dict_keys (prod_map id f <$> d) = dict_keys d.
Proof.
  unfold dict_keys. rewrite <- list_fmap_compose. by apply list_fmap_ext; intros ? [].
Qed.
End dict_facts.

Section first_occurrences_facts.
Context {T : Type} `{EqDecision T}.
Implicit Types (l acc : list T) (x k : T).

Lemma dict_keys_setitem {V} k (v : V) (d : dict T V) :
  dict_keys (dict_setitem k v d) = add_key (dict_keys d) k.
Proof.
  unfold add_key. case_decide as Hin.
  - induction d as [|[k' v'] d IH]; simpl; [by apply elem_of_nil in Hin|].
    case_decide; simpl; [done|]. f_equal. apply IH.
    simpl in Hin. apply elem_of_cons in Hin as [->|]; done.
  - rewrite dict_setitem_fresh by done. unfold dict_keys. by rewrite fmap_app.
Qed.

Lemma filter_all (P : T → Prop) `{∀ x, Decision (P x)} l :
  (∀ x, x ∈ l → P x) → filter P l = l.
Proof.
  induction l as [|y l IH]; intros HP; [done|].
  rewrite filter_cons_True by (apply HP; left).
  f_equal. apply IH. intros x Hx. apply HP. by right.
Qed.

Lemma foldl_add_key acc l :
  foldl add_key acc l = acc ++ filter (λ y, y ∉ acc) (first_occurrences l).
Proof.
  revert acc. induction l as [|x l IH]; intros acc; simpl.
  - by rewrite filter_nil, app_nil_r.
  - rewrite IH, filter_cons. unfold add_key. destruct (decide (x ∈ acc)) as [Hin|Hnin].
    + rewrite decide_False by tauto. f_equal. symmetry. apply list_filter_filter_l.
      intros y Hy ->. done.
    + rewrite decide_True by done. rewrite <- app_assoc. simpl. do 2 f_equal.
      rewrite list_filter_filter. apply list_filter_iff. intros y.
      rewrite not_elem_of_app, not_elem_of_cons. intuition. by apply elem_of_nil in H.
Qed.

Lemma first_occurrences_foldl l : first_occurrences l = foldl add_key [] l.
Proof.
  rewrite foldl_add_key. simpl. symmetry. apply filter_all.
  intros; apply not_elem_of_nil.
Qed.

Lemma elem_of_first_occurrences x l : x ∈ first_occurrences l ↔ x ∈ l.
Proof.
  induction l as [|y l IH]; simpl; [done|].
  rewrite !elem_of_cons, list_elem_of_filter, IH.
  destruct (decide (x = y)); intuition.
Qed.

Lemma NoDup_first_occurrences l : NoDup (first_occurrences l).
Proof.
  induction l as [|y l IH]; simpl; [constructor|].
  apply NoDup_cons. split.
  - rewrite list_elem_of_filter. intros [? _]; done.
  - by apply NoDup_filter.
Qed.

Lemma first_occurrences_NoDup l : NoDup l → first_occurrences l = l.
Proof.
  induction 1 as [|x l Hnin Hnd IH]; simpl; [done|].
  rewrite IH. f_equal. apply filter_all. intros y Hy ->. done.
Qed.

Lemma first_occurrences_app l1 l2 :
  first_occurrences (l1 ++ l2) =
  first_occurrences l1 ++ filter (λ y, y ∉ first_occurrences l1) (first_occurrences l2).
Proof.
  rewrite (first_occurrences_foldl (l1 ++ l2)), foldl_app.
  by rewrite <- first_occurrences_foldl, foldl_add_key.
Qed.

Lemma first_occurrences_idemp l :
  first_occurrences (first_occurrences l) = first_occurrences l.
Proof. apply first_occurrences_NoDup, NoDup_first_occurrences. Qed.

Lemma first_occurrences_app_l l1 l2 :
  first_occurrences (first_occurrences l1 ++ l2) = first_occurrences (l1 ++ l2).
Proof. by rewrite !first_occurrences_app, first_occurrences_idemp. Qed.

Lemma first_occurrences_disjoint l1 l2 :
  NoDup l1 → NoDup l2 → (∀ x, x ∈ l1 → x ∉ l2) →
  first_occurrences (l1 ++ l2) = l1 ++ l2.
Proof.
  intros H1 H2 Hd. apply first_occurrences_NoDup, NoDup_app. auto.
Qed.

Lemma dict_keys_foldl_setitem {V} l (v : V) (d : dict T V) :
  dict_keys (foldl (λ d k, dict_setitem k v d) d l) = foldl add_key (dict_keys d) l.
Proof.
  revert d. induction l as [|x l IH]; intros d; simpl; [done|].
  by rewrite IH, dict_keys_setitem.
Qed.

Lemma dict_keys_fromkeys {V} l (v : V) :
  dict_keys (dict_fromkeys l v) = first_occurrences l.
Proof.
  unfold dict_fromkeys.
  by rewrite dict_keys_foldl_setitem, first_occurrences_foldl.
Qed.

Lemma dict_keys_update {V} (d other : dict T V) :
  dict_keys (dict_update d other) = foldl add_key (dict_keys d) (dict_keys other).
Proof.
  unfold dict_update. revert d.
  induction other as [|[k v] other IH]; intros d; simpl; [done|].
  by rewrite IH, dict_keys_setitem.
Qed.

(** A dict with values [None] is determined by its keys. *)
Lemma dict_unit_keys (d : dict T unit) : d = (λ k, (k, tt)) <$> dict_keys d.
Proof.
  unfold dict_keys. rewrite <- list_fmap_compose.
  rewrite <- (list_fmap_id d) at 1. apply list_fmap_ext. by intros ? [? []].
Qed.
End first_occurrences_facts.

(** ** OrderedSet: states, [add] and the constructor *)

Ltac run_py :=
  unfold bind, get, put, modify, lift, ret, raise; simpl.

(** The same, touching only the monad and the slots of the objects. *)
Ltac step_py :=
  unfold bind, get, put, modify, lift, ret, raise;
  cbn [OrderedSet._items OrderedSet._map StableSet._map fst snd].

Section ordered_facts.
Context {T : Type} `{EqDecision T}.
Implicit Types (s : OrderedSet.t T) (items l : list T) (key x : T).

Lemma dict_get_Some_wf {V} x (v : V) (d : dict T V) :
  dict_wf d → dict_get x d = Some v ↔ (x, v) ∈ d.
Proof.
  intros Hd. split; [apply dict_get_Some_elem|].
  unfold dict_wf in Hd. induction d as [|[k' v'] d IH]; simpl.
  - intros Hin. by apply elem_of_nil in Hin.
  - simpl in Hd. apply NoDup_cons in Hd as [Hnin Hnd].
    rewrite elem_of_cons. intros [[= -> ->]|Hin].
    + by rewrite decide_True.
    + rewrite decide_False; [by apply IH|].
      intros ->. apply Hnin. unfold dict_keys.
      apply list_elem_of_fmap. by exists (x, v).
Qed.

Lemma dict_keys_enumerate items : dict_keys (enumerate items) = items.
Proof.
  unfold dict_keys, enumerate. rewrite fmap_imap. simpl.
  rewrite (imap_ext _ (const id)) by done. by rewrite imap_const, list_fmap_id.
Qed.

Lemma enumerate_snoc items key :
  enumerate (items ++ [key]) = enumerate items ++ [(key, len items)].
Proof.
  unfold enumerate, len. rewrite imap_app. simpl. by rewrite Nat.add_0_r.
Qed.

Lemma elem_of_enumerate items x (i : Z) :
  (x, i) ∈ enumerate items ↔ (0 ≤ i)%Z ∧ items !! Z.to_nat i = Some x.
Proof.
  unfold enumerate. rewrite elem_of_lookup_imap. split.
  - intros (n & y & [= -> ->] & Hn). split; [lia|]. by rewrite Nat2Z.id.
  - intros [Hi Hx]. exists (Z.to_nat i), x. split; [|done].
    f_equal. lia.
Qed.

Lemma canonical_position_inv s : canonical s → position_inv s.
Proof.
  destruct s as [items m]. intros [Hnd Hm]; simpl in *. subst m.
  assert (dict_wf (enumerate items)) as Hwf.
  { unfold dict_wf. by rewrite dict_keys_enumerate. }
  split; simpl; [done|]. intros x i.
  by rewrite dict_get_Some_wf, elem_of_enumerate.
Qed.

(** What a call of [add] does, by whether the key is in the map. *)
Lemma add_run key s :
  OrderedSet.add key s =
  match dict_get key (OrderedSet._map s) with
  | Some i => (Ok i, s)
  | None =>
      (Ok (len (OrderedSet._items s)),
       OrderedSet.mk (OrderedSet._items s ++ [key])
         (dict_setitem key (len (OrderedSet._items s)) (OrderedSet._map s)))
  end.
Proof.
  destruct s as [items m]. unfold OrderedSet.add, OrderedSet.set_map,
    OrderedSet.set_items, dict_contains. run_py.
  destruct (dict_get key m) as [i|] eqn:E; simpl.
  - by rewrite E.
  - by rewrite dict_get_setitem, decide_True.
Qed.

Lemma NoDup_add_key items key : NoDup items → NoDup (add_key items key).
Proof.
  intros Hnd. unfold add_key. case_decide; [done|].
  apply NoDup_app. split_and!; [done| |apply NoDup_singleton].
  intros y Hy ->%list_elem_of_singleton. done.
Qed.

Lemma add_canonical key items :
  NoDup items →
  (OrderedSet.add key (OrderedSet.mk items (enumerate items))).2 =
  OrderedSet.mk (add_key items key) (enumerate (add_key items key)).
Proof.
  intros Hnd. rewrite add_run. simpl. unfold add_key.
  destruct (dict_get key (enumerate items)) as [i|] eqn:E.
  - rewrite decide_True; [done|].
    rewrite <- (dict_keys_enumerate items) at 1.
    apply dict_contains_true. unfold dict_contains. by rewrite E.
  - apply dict_get_None in E. rewrite decide_False.
    + simpl. by rewrite dict_setitem_fresh, enumerate_snoc.
    + by rewrite dict_keys_enumerate in E.
Qed.

Lemma add_returns key s : ∃ i, (OrderedSet.add key s).1 = Ok i.
Proof. rewrite add_run. destruct (dict_get _ _); eauto. Qed.

Lemma for_add_canonical l items :
  NoDup items →
  for_ l (λ value, do OrderedSet.add value in ret tt)%py
       (OrderedSet.mk items (enumerate items)) =
  (Ok tt, OrderedSet.mk (foldl add_key items l) (enumerate (foldl add_key items l))).
Proof.
  revert items. induction l as [|x l IH]; intros items Hnd; simpl; [done|].
  pose proof (add_canonical x items Hnd) as Hs.
  destruct (add_returns x (OrderedSet.mk items (enumerate items))) as [i Hi].
  unfold bind at 1. unfold bind at 1.
  destruct (OrderedSet.add x _) as [r s']. simpl in *. subst. simpl.
  apply IH. by apply NoDup_add_key.
Qed.

(** The constructor builds the canonical state over the first
    occurrences of [initial]. *)
Lemma init_canonical l :
  OrderedSet.__init__ (Some l) =
  OrderedSet.mk (first_occurrences l) (enumerate (first_occurrences l)).
Proof.
  unfold OrderedSet.__init__.
  change (@nil (T * Z)) with (enumerate (@nil T)).
  rewrite for_add_canonical by constructor. simpl.
  by rewrite <- first_occurrences_foldl.
Qed.
End ordered_facts.

(** ** OrderedSet: the position map under [add] and [discard] *)

Section reindexing.
Context {T : Type} `{EqDecision T}.
Implicit Types (s : OrderedSet.t T) (items l : list T) (key x : T) (m : dict T Z).

Lemma position_inv_lt s x i :
  position_inv s → dict_get x (OrderedSet._map s) = Some i →
  (0 ≤ i < len (OrderedSet._items s))%Z.
Proof.
  intros [_ Hinv] Hx. apply Hinv in Hx as [Hi Hx].
  apply lookup_lt_Some in Hx. unfold len. lia.
Qed.

Lemma add_position_inv key s : position_inv s → position_inv (OrderedSet.add key s).2.
Proof.
  intros Hs. rewrite add_run.
  destruct (dict_get key (OrderedSet._map s)) as [i|] eqn:E; [done|].
  destruct s as [items m], Hs as [Hwf Hinv]; simpl in *.
  split; simpl.
  - unfold dict_wf in *. rewrite dict_keys_setitem. by apply NoDup_add_key.
  - intros x i. rewrite dict_get_setitem. case_decide as Hk.
    + subst x. split.
      * intros [= <-]. split; [unfold len; lia|].
        unfold len. rewrite Nat2Z.id. by apply list_lookup_middle.
      * intros [Hi Hx]. f_equal.
        destruct (decide (Z.to_nat i < length items)%nat) as [Hlt|Hge].
        { rewrite lookup_app_l in Hx by done.
          assert (dict_get key m = Some i) by (apply Hinv; done). congruence. }
        apply lookup_lt_Some in Hx. rewrite length_app in Hx. simpl in Hx.
        unfold len. lia.
    + rewrite Hinv. split; intros [Hi Hx]; (split; [done|]).
      * apply lookup_app_l_Some. done.
      * apply lookup_app_Some in Hx as [Hx|[Hlen Hx]]; [done|].
        apply list_lookup_singleton_Some in Hx as [_ ->]. done.
Qed.

(** The repair loop of [discard] rewrites every value of the map once. *)
Lemma discard_loop (i : Z) items (done_ todo : dict T Z) :
  dict_wf (done_ ++ todo) →
  for_ todo
    (λ kv, if (kv.2 >=? i)%Z
           then modify (λ self, OrderedSet.mk (OrderedSet._items self)
                          (dict_setitem kv.1 (kv.2 - 1)%Z (OrderedSet._map self)))
           else ret tt)
    (OrderedSet.mk items (done_ ++ todo)) =
  (Ok tt,
   OrderedSet.mk items
     (done_ ++ (prod_map id (λ v, if (v >=? i)%Z then (v - 1)%Z else v) <$> todo))).
Proof.
  revert done_. induction todo as [|[k v] todo IH]; intros done_ Hwf; simpl; [done|].
  assert (k ∉ dict_keys done_) as Hk.
  { unfold dict_wf, dict_keys in Hwf. rewrite fmap_app in Hwf.
    apply NoDup_app in Hwf as (_ & Hd & _). intros Hin.
    apply (Hd k Hin). simpl. left. }
  unfold bind at 1. destruct (v >=? i)%Z; run_py.
  - rewrite dict_setitem_here by done.
    rewrite (cons_middle _ done_ todo), app_assoc. rewrite IH.
    + rewrite <- app_assoc. reflexivity.
    + unfold dict_wf, dict_keys in *. rewrite !fmap_app, <- app_assoc.
      rewrite fmap_app in Hwf. exact Hwf.
  - rewrite (cons_middle _ done_ todo), app_assoc. rewrite IH.
    + rewrite <- app_assoc. reflexivity.
    + unfold dict_wf, dict_keys in *. rewrite !fmap_app, <- app_assoc.
      rewrite fmap_app in Hwf. exact Hwf.
Qed.

(** What a call of [discard] does in a state that satisfies the invariant. *)
Lemma discard_run key s :
  position_inv s →
  OrderedSet.discard key s =
  match dict_get key (OrderedSet._map s) with
  | None => (Ok tt, s)
  | Some i =>
      (Ok tt,
       OrderedSet.mk (delete (Z.to_nat i) (OrderedSet._items s))
         (prod_map id (λ v, if (v >=? i)%Z then (v - 1)%Z else v)
            <$> dict_remove key (OrderedSet._map s)))
  end.
Proof.
  intros Hs. pose proof (position_inv_lt s key) as Hlt.
  destruct s as [items m], Hs as [Hwf Hinv]; simpl in *.
  unfold OrderedSet.discard, OrderedSet.__contains__, OrderedSet.index,
    OrderedSet.set_items, OrderedSet.set_map, dict_delitem, dict_contains.
  unfold bind at 1. unfold get at 1. simpl.
  destruct (dict_get key m) as [i|] eqn:E; [|done].
  specialize (Hlt i (conj Hwf Hinv) eq_refl).
  unfold list_delitem, norm_index. run_py.
  rewrite (proj2 (Z.leb_le 0 i)), (proj2 (Z.ltb_lt i (len items))) by lia.
  simpl.
  apply (discard_loop i _ []). simpl. by apply dict_remove_wf.
Qed.

Lemma discard_position_inv key s :
  position_inv s → position_inv (OrderedSet.discard key s).2.
Proof.
  intros Hs. rewrite discard_run by done.
  destruct (dict_get key (OrderedSet._map s)) as [i|] eqn:E; [|done].
  pose proof (position_inv_lt s key i Hs E) as Hlt.
  destruct s as [items m], Hs as [Hwf Hinv]; simpl in *.
  pose proof E as Hk. apply Hinv in Hk as [_ Hk].
  split; simpl.
  - unfold dict_wf. rewrite dict_keys_fmap. by apply dict_remove_wf.
  - intros x j. rewrite dict_get_fmap, dict_get_remove by done.
    case_decide as Hx; simpl.
    + subst x. split; [done|]. intros [Hj Hd].
      destruct (decide (Z.to_nat j < Z.to_nat i)%nat).
      * rewrite list_lookup_delete_lt in Hd by done.
        assert (dict_get key m = Some j) by (apply Hinv; done).
        assert (j = i) by congruence. lia.
      * rewrite list_lookup_delete_ge in Hd by lia.
        assert (dict_get key m = Some (j + 1)%Z) as Hj1.
        { apply Hinv. split; [lia|]. by replace (Z.to_nat (j + 1)) with (S (Z.to_nat j)) by lia. }
        assert (j + 1 = i)%Z by congruence. lia.
    + split.
      * destruct (dict_get x m) as [v|] eqn:Ev; simpl; [|done].
        intros [= <-]. pose proof Ev as Hv. apply Hinv in Hv as [Hv0 Hv].
        assert (v ≠ i) by (intros ->; congruence).
        destruct (Z.geb_spec v i).
        -- split; [lia|]. rewrite list_lookup_delete_ge by lia.
           by replace (S (Z.to_nat (v - 1))) with (Z.to_nat v) by lia.
        -- split; [lia|]. by rewrite list_lookup_delete_lt by lia.
      * intros [Hj Hd]. destruct (decide (Z.to_nat j < Z.to_nat i)%nat).
        -- rewrite list_lookup_delete_lt in Hd by done.
           assert (dict_get x m = Some j) as -> by (apply Hinv; done). simpl.
           destruct (Z.geb_spec j i); [lia|done].
        -- rewrite list_lookup_delete_ge in Hd by lia.
           assert (dict_get x m = Some (j + 1)%Z) as ->.
           { apply Hinv. split; [lia|].
             by replace (Z.to_nat (j + 1)) with (S (Z.to_nat j)) by lia. }
           simpl. destruct (Z.geb_spec (j + 1) i); [f_equal; lia|lia].
Qed.
End reindexing.

(** ** Constructors and iteration of the three classes *)

Section object_facts.
Context {T : Type} `{EqDecision T}.
Implicit Types (self A B C : object T) (l : list T) (cls : klass).

Lemma stable_init l :
  StableSet.__init__ (Some l) =
  StableSet.mk ((λ k, (k, tt)) <$> first_occurrences l).
Proof.
  assert (StableSet.__init__ (Some l) = StableSet.mk (dict_fromkeys l tt)) as ->
    by (by destruct l).
  f_equal. by rewrite (dict_unit_keys (dict_fromkeys l tt)), dict_keys_fromkeys.
Qed.

Lemma dict_keys_const {V} (v : V) l :
  dict_keys ((λ k, (k, v)) <$> l) = l.
Proof. induction l as [|x l IH]; simpl; [done|]. by f_equal. Qed.

Lemma type_new cls initial : type (new (T:=T) cls initial) = cls.
Proof. by destruct cls. Qed.

Lemma iter_new cls l : __iter__ (new cls (Some l)) = first_occurrences l.
Proof.
  destruct cls; cbn [new __iter__]; rewrite ?stable_init, ?init_canonical.
  - apply dict_keys_const.
  - apply dict_keys_const.
  - apply dict_keys_enumerate.
Qed.

Lemma len_new cls l : __len__ (new cls (Some l)) = len (first_occurrences l).
Proof.
  destruct cls; cbn [new __len__]; rewrite ?stable_init, ?init_canonical.
  - unfold StableSet.__len__, len. simpl. by rewrite length_fmap.
  - unfold StableSet.__len__, len. simpl. by rewrite length_fmap.
  - unfold OrderedSet.__len__, len, enumerate. simpl. by rewrite length_imap.
Qed.

(** A constructor call depends on its argument only through the first
    occurrences of the elements. *)
Lemma new_ext cls l1 l2 :
  first_occurrences l1 = first_occurrences l2 →
  new cls (Some l1) = new cls (Some l2).
Proof.
  intros Hl. destruct cls; cbn [new]; rewrite ?stable_init, ?init_canonical;
    by rewrite Hl.
Qed.

Lemma new_canonical l : canonical (OrderedSet.__init__ (Some l)).
Proof.
  rewrite init_canonical. split; simpl; [apply NoDup_first_occurrences|done].
Qed.

Lemma iter_difference self (other : list T) :
  NoDup (__iter__ self) →
  __iter__ (difference self [other]) = filter (λ x, x ∉ other) (__iter__ self).
Proof.
  intros Hnd. unfold difference. rewrite iter_new. simpl. rewrite app_nil_r.
  apply first_occurrences_NoDup. by apply NoDup_filter.
Qed.
End object_facts.

(** ** Set algebra, pickling and copying *)

Section algebra.
Context {T : Type} `{EqDecision T}.
Implicit Types (self A B C : object T) (l : list T) (cls : klass).

Lemma len_iter self : __len__ self = len (__iter__ self).
Proof.
  destruct self as [b [m]|[items m]]; simpl;
    unfold StableSet.__len__, OrderedSet.__len__, StableSet.__iter__,
      OrderedSet.__iter__, len, dict_keys; by rewrite length_fmap.
Qed.

Lemma wf_NoDup self : wf self → NoDup (__iter__ self).
Proof.
  destruct self as [b [m]|[items m]]; simpl; [done|].
  intros [Hnd Hm]; simpl in *. subst m.
  unfold OrderedSet.__iter__. simpl. by rewrite dict_keys_enumerate.
Qed.

(** Rebuilding a well-formed container from its own elements gives the
    container back. *)
Lemma new_iter_wf self : wf self → new (type self) (Some (__iter__ self)) = self.
Proof.
  intros Hwf. pose proof (wf_NoDup self Hwf) as Hnd.
  destruct self as [[] [m]|[items m]]; cbn [type new];
    rewrite ?stable_init, ?init_canonical; simpl in *.
  - unfold StableSet.__iter__ in *. simpl in *.
    by rewrite first_occurrences_NoDup, <- dict_unit_keys.
  - unfold StableSet.__iter__ in *. simpl in *.
    by rewrite first_occurrences_NoDup, <- dict_unit_keys.
  - destruct Hwf as [Hi Hm]; simpl in *. subst m.
    unfold OrderedSet.__iter__. simpl.
    by rewrite dict_keys_enumerate, first_occurrences_NoDup.
Qed.

(** The elements and the order of [A.symmetric_difference(B)]. *)
Lemma symmetric_difference_spec (A B : object T) :
  NoDup (__iter__ A) → NoDup (__iter__ B) →
  let R := symmetric_difference A (__iter__ B) in
  type R = type A ∧
  __iter__ R = filter (λ x, x ∉ __iter__ B) (__iter__ A) ++
               filter (λ x, x ∉ __iter__ A) (__iter__ B) ∧
  ∀ x, x ∈ __iter__ R ↔
       (x ∈ __iter__ A ∧ x ∉ __iter__ B) ∨ (x ∈ __iter__ B ∧ x ∉ __iter__ A).
Proof.
  intros HA HB R.
  assert (__iter__ R = filter (λ x, x ∉ __iter__ B) (__iter__ A) ++
                       filter (λ x, x ∉ __iter__ A) (__iter__ B)) as HR.
  { unfold R, symmetric_difference, union.
    rewrite iter_new. cbn [concat].
    rewrite !iter_difference by (rewrite iter_new; apply NoDup_first_occurrences).
    rewrite !iter_new, app_nil_r.
    rewrite (first_occurrences_NoDup (__iter__ A)),
      (first_occurrences_NoDup (__iter__ B)) by done.
    apply first_occurrences_disjoint; try by apply NoDup_filter.
    intros x [Hx _]%list_elem_of_filter [_ Hx']%list_elem_of_filter. done. }
  split_and!; [|done|].
  - unfold R, symmetric_difference, union, difference. by rewrite !type_new.
  - intros x. rewrite HR, elem_of_app, !list_elem_of_filter. tauto.
Qed.

(** C8. [A.union(B).union(C)] and [A.union(B, C)] are the same container,
    elements and order: the concatenation of A, B and C with each element
    kept where it occurs first. *)
Theorem union_associative (A B C : object T) :
  union (union A [__iter__ B]) [__iter__ C] = union A [__iter__ B; __iter__ C] ∧
  __iter__ (union (union A [__iter__ B]) [__iter__ C]) =
    first_occurrences (__iter__ A ++ __iter__ B ++ __iter__ C) ∧
  __iter__ (union A [__iter__ B; __iter__ C]) =
    first_occurrences (__iter__ A ++ __iter__ B ++ __iter__ C).
Proof.
  assert (union (union A [__iter__ B]) [__iter__ C] =
          union A [__iter__ B; __iter__ C]) as Heq.
  { unfold union. rewrite type_new, iter_new. apply new_ext.
    cbn [concat]. rewrite !app_nil_r, first_occurrences_app_l.
    by rewrite <- app_assoc. }
  split_and!; [done| |].
  - rewrite Heq. unfold union. rewrite iter_new. cbn [concat].
    by rewrite app_nil_r.
  - unfold union. rewrite iter_new. cbn [concat]. by rewrite app_nil_r.
Qed.

(** C9. Restoring the state captured from a container C into an object
    of C's class gives a container with C's elements in C's order (equal
    to C as an OrderedSet compares, and C itself when C is well formed);
    the empty container, and only it, is captured as the marker
    [(None,)], which restores to an empty container. *)
Theorem getstate_setstate_round_trip (C self0 : object T) :
  type self0 = type C → NoDup (__iter__ C) →
  let R := __setstate__ self0 (__getstate__ C) in
  type R = type C ∧
  __iter__ R = __iter__ C ∧
  (∀ o, R = Ordered o → OrderedSet.__eq__ o (__len__ C) (__iter__ C) = true) ∧
  (wf C → R = C) ∧
  (__getstate__ C = NoneTuple ↔ __iter__ C = []) ∧
  __iter__ (__setstate__ self0 NoneTuple) = [].
Proof.
  intros Hty Hnd R.
  assert (R = new (type C) (Some (__iter__ C))) as HR.
  { unfold R, __getstate__, __setstate__. rewrite Hty, len_iter.
    case_decide as Hlen; [|done].
    destruct (__iter__ C); [done|]. unfold len in Hlen. simpl in Hlen. lia. }
  assert (__iter__ R = __iter__ C) as Hiter
    by (by rewrite HR, iter_new, first_occurrences_NoDup).
  split_and!.
  - by rewrite HR, type_new.
  - done.
  - intros o Ho. rewrite Ho in HR, Hiter.
    destruct (type C); cbn [new] in HR; try discriminate.
    assert (o = OrderedSet.__init__ (Some (__iter__ C))) as -> by congruence.
    clear HR Ho Hiter. rewrite init_canonical, first_occurrences_NoDup by done.
    unfold OrderedSet.__eq__, OrderedSet.__len__. simpl. rewrite len_iter.
    apply andb_true_iff. split; apply bool_decide_eq_true; [|done].
    unfold len, enumerate. by rewrite length_imap.
  - intros Hwf. rewrite HR. by apply new_iter_wf.
  - unfold __getstate__. rewrite len_iter. case_decide as Hlen.
    + split; [intros _|done]. destruct (__iter__ C); [done|].
      unfold len in Hlen. simpl in Hlen. lia.
    + split; [done|]. intros Hnil. by rewrite Hnil in Hlen.
  - unfold __setstate__. by rewrite iter_new.
Qed.

(** C10. [C.copy()], called through the reference to a container C of
    any class (StableSet, StableSetEq, OrderedSet), returns a reference
    other than C's, to an object that did not exist before the call; that
    object has the class of C and C's elements in C's order (it is what
    [copy] builds from the value C, and equal to C for a well-formed C),
    and the call leaves C and every other object as they were. *)
Theorem copy_new_object (h : heap T) (a : nat) (C : object T) :
  h !! a = Some C → NoDup (__iter__ C) →
  ∃ a' h' C',
    Ref.copy a h = Some (a', h') ∧
    a' ≠ a ∧ h !! a' = None ∧
    h' !! a = Some C ∧ (∀ b o, h !! b = Some o → h' !! b = Some o) ∧
    h' !! a' = Some C' ∧ C' = copy C ∧
    type C' = type C ∧ __iter__ C' = __iter__ C ∧ (wf C → C' = C).
Proof.
  intros Ha Hnd. exists (length h), (h ++ [copy C]), (copy C).
  pose proof (lookup_lt_Some _ _ _ Ha) as Hlt.
  split_and!.
  - unfold Ref.copy, Ref.__class__. rewrite Ha.
    unfold Ref.call, Ref.iterate. by rewrite Ha.
  - lia.
  - by apply lookup_ge_None.
  - by apply lookup_app_l_Some.
  - intros b o Hb. by apply lookup_app_l_Some.
  - by apply list_lookup_middle.
  - done.
  - unfold copy. by rewrite type_new.
  - unfold copy. by rewrite iter_new, first_occurrences_NoDup.
  - apply new_iter_wf.
Qed.
End algebra.

(** ** OrderedSet: sequences of [add] and [discard] *)

Section reindexing_invariant.
Context {T : Type} `{EqDecision T}.
Implicit Types (s : OrderedSet.t T) (key x : T).

Lemma list_getitem_nonneg {A} (l : list A) (i : Z) (a : A) :
  (0 ≤ i)%Z → l !! Z.to_nat i = Some a → list_getitem l i = Ok a.
Proof.
  intros Hi Ha. pose proof (lookup_lt_Some _ _ _ Ha) as Hlt.
  unfold list_getitem, norm_index, len.
  rewrite (proj2 (Z.leb_le 0 i)), (proj2 (Z.ltb_lt i _)) by lia.
  by rewrite Ha.
Qed.

Lemma call_position_inv (o : op T) s :
  position_inv s → ∃ s', call o s = (Ok tt, s') ∧ position_inv s'.
Proof.
  intros Hs. destruct o as [key|key]; simpl.
  - pose proof (add_position_inv key s Hs) as Hs'.
    destruct (add_returns key s) as [i Hi]. unfold bind.
    destruct (OrderedSet.add key s) as [r s']. simpl in *. subst r.
    by exists s'.
  - pose proof (discard_position_inv key s Hs) as Hs'.
    rewrite discard_run in * by done.
    destruct (dict_get key (OrderedSet._map s)); eauto.
Qed.

Lemma run_position_inv (ops : list (op T)) s :
  position_inv s → ∃ s', run ops s = (Ok tt, s') ∧ position_inv s'.
Proof.
  revert s. induction ops as [|o ops IH]; intros s Hs.
  - by exists s.
  - destruct (call_position_inv o s Hs) as (s1 & Hcall & Hs1).
    destruct (IH s1 Hs1) as (s' & Hrun & Hs').
    exists s'. split; [|done]. unfold run in *. simpl. unfold bind.
    by rewrite Hcall.
Qed.

(** Under the invariant every element of the container is at the
    position the map records for it. *)
Lemma position_inv_getitem s x :
  position_inv s → OrderedSet.__contains__ s x = true →
  ∃ i, OrderedSet.index s x = Ok i ∧ OrderedSet.__getitem__ s i = Ok x.
Proof.
  intros [_ Hinv]. unfold OrderedSet.__contains__, OrderedSet.index,
    OrderedSet.__getitem__, dict_contains.
  destruct (dict_get x (OrderedSet._map s)) as [i|] eqn:E; [|done].
  intros _. exists i. split; [done|].
  apply Hinv in E as [Hi Hx]. by apply list_getitem_nonneg.
Qed.

Lemma index_Ok s x i :
  OrderedSet.index s x = Ok i ↔ dict_get x (OrderedSet._map s) = Some i.
Proof.
  unfold OrderedSet.index. destruct (dict_get _ _); split; congruence.
Qed.

(** C3. From a state of an OrderedSet in which [position_map[x] == i] iff
    [sequence[i] == x], every sequence of [add] and [discard] calls runs
    without an exception and ends in such a state, where each element x
    of the container has [sequence[index(x)] == x]; [discard] of a
    present element deletes it from the sequence and lowers by one the
    recorded position of every element after it (the positions before it
    stay), and [discard] of an absent element changes nothing. *)
Theorem reindexing_invariant (s : OrderedSet.t T) (ops : list (op T)) :
  position_inv s →
  (∃ s', run ops s = (Ok tt, s') ∧ position_inv s' ∧
     ∀ x, OrderedSet.__contains__ s' x = true →
          ∃ i, OrderedSet.index s' x = Ok i ∧ OrderedSet.__getitem__ s' i = Ok x) ∧
  (∀ key i, OrderedSet.index s key = Ok i →
     ∃ s', OrderedSet.discard key s = (Ok tt, s') ∧
       OrderedSet._items s' = delete (Z.to_nat i) (OrderedSet._items s) ∧
       OrderedSet.__contains__ s' key = false ∧
       ∀ x j, x ≠ key → OrderedSet.index s x = Ok j →
              OrderedSet.index s' x = Ok (if (i <? j)%Z then (j - 1)%Z else j)) ∧
  (∀ key, OrderedSet.__contains__ s key = false →
          OrderedSet.discard key s = (Ok tt, s)).
Proof.
  intros Hs. split_and!.
  - destruct (run_position_inv ops s Hs) as (s' & Hrun & Hs').
    exists s'. split_and!; [done..|]. intros x. by apply position_inv_getitem.
  - intros key i Hi%index_Ok. rewrite discard_run, Hi by done.
    eexists. split; [done|]. destruct Hs as [Hwf Hinv]. simpl.
    split_and!; [done| |].
    + unfold OrderedSet.__contains__, dict_contains. simpl.
      by rewrite dict_get_fmap, dict_get_remove, decide_True.
    + intros x j Hx Hj%index_Ok. apply index_Ok. simpl.
      rewrite dict_get_fmap, dict_get_remove, decide_False, Hj by done.
      simpl. f_equal.
      assert (j ≠ i).
      { intros ->. apply Hinv in Hi as [_ Hi], Hj as [_ Hj]. congruence. }
      destruct (Z.geb_spec j i), (Z.ltb_spec i j); lia || done.
  - intros key Hc. unfold OrderedSet.discard. unfold bind, get. by rewrite Hc.
Qed.
End reindexing_invariant.

(** ** What [add] and [update] return *)

Section returned_positions.
Context {T : Type} `{EqDecision T}.
Implicit Types (key x : T) (l : list T).

(** StableSet: the value returned is the last position, whatever the key. *)
Lemma stable_add_run key (s : StableSet.t T) :
  StableSet.add key s =
  (Ok (len (add_key (StableSet.__iter__ s) key) - 1)%Z,
   StableSet.mk (dict_setitem key tt (StableSet._map s))).
Proof.
  unfold StableSet.add, StableSet.__iter__. run_py. do 2 f_equal.
  rewrite <- (dict_keys_setitem key tt). unfold len, dict_keys.
  by rewrite !length_fmap.
Qed.

Lemma stable_index_app_fresh key l :
  key ∉ l →
  list_find (λ item, item = key) (l ++ [key]) = Some (length l, key).
Proof.
  intros Hnin. rewrite list_find_app_r.
  - simpl. rewrite decide_True by done. simpl. do 2 f_equal; lia.
  - apply list_find_None, Forall_forall. intros y Hy ->. done.
Qed.

(** StableSet: for a key that was absent this is the index of the key. *)
Lemma stable_add_absent key (s : StableSet.t T) :
  StableSet.__contains__ s key = false →
  ∃ i s', StableSet.add key s = (Ok i, s') ∧ StableSet.index s' key = Ok i ∧
          StableSet.__iter__ s' = StableSet.__iter__ s ++ [key].
Proof.
  intros Hc%dict_contains_false. rewrite stable_add_run.
  eexists _, _. split; [done|].
  unfold StableSet.index, StableSet.__iter__, add_key. simpl.
  rewrite dict_keys_setitem. unfold add_key. rewrite !decide_False by done.
  rewrite stable_index_app_fresh by done. split; [|done].
  f_equal. unfold len. rewrite length_app. simpl. lia.
Qed.

(** OrderedSet: the value returned is the index of the key. *)
Lemma ordered_add_index key (s : OrderedSet.t T) :
  position_inv s →
  ∃ i s', OrderedSet.add key s = (Ok i, s') ∧ position_inv s' ∧
          OrderedSet.index s' key = Ok i ∧ OrderedSet.__getitem__ s' i = Ok key ∧
          OrderedSet._items s' =
            (if OrderedSet.__contains__ s key then OrderedSet._items s
             else OrderedSet._items s ++ [key]).
Proof.
  intros Hs. pose proof (add_position_inv key s Hs) as Hs'.
  rewrite add_run in *. unfold OrderedSet.__contains__, dict_contains.
  destruct (dict_get key (OrderedSet._map s)) as [i|] eqn:E;
    eexists _, _; (split; [done|]); (split; [done|]).
  - assert (OrderedSet.index s key = Ok i) as Hi by (by apply index_Ok).
    split_and!; [done| |done].
    destruct (position_inv_getitem s key Hs) as (j & Hj & Hget).
    + unfold OrderedSet.__contains__, dict_contains. by rewrite E.
    + congruence.
  - assert (OrderedSet.index
              (OrderedSet.mk (OrderedSet._items s ++ [key])
                 (dict_setitem key (len (OrderedSet._items s)) (OrderedSet._map s)))
              key = Ok (len (OrderedSet._items s))) as Hi.
    { apply index_Ok. simpl. by rewrite dict_get_setitem, decide_True. }
    split_and!; [done| |done].
    destruct (position_inv_getitem _ key Hs') as (j & Hj & Hget).
    + unfold OrderedSet.__contains__, dict_contains. simpl.
      by rewrite dict_get_setitem, decide_True.
    + assert (j = len (OrderedSet._items s)) as -> by (simpl in *; congruence).
      exact Hget.
Qed.

Lemma ordered_update_loop l x i0 (s : OrderedSet.t T) :
  position_inv s →
  ∃ i s', OrderedSet.update_loop (l ++ [x]) i0 s = (Ok i, s') ∧
          position_inv s' ∧ OrderedSet.index s' x = Ok i.
Proof.
  revert i0 s. induction l as [|y l IH]; intros i0 s Hs; simpl; unfold bind.
  - destruct (ordered_add_index x s Hs) as (i & s' & -> & Hs' & Hi & _).
    by exists i, s'.
  - destruct (ordered_add_index y s Hs) as (i & s' & -> & Hs' & _).
    apply IH, Hs'.
Qed.

(** OrderedSet: [update] returns the index of the last element of the
    argument. *)
Lemma ordered_update_last l x (s : OrderedSet.t T) :
  position_inv s →
  ∃ i s', OrderedSet.update (Iterable (l ++ [x])) s = (Ok i, s') ∧
          position_inv s' ∧ OrderedSet.index s' x = Ok i.
Proof. apply ordered_update_loop. Qed.

(** StableSet: [update] returns the last position of the container. *)
Lemma stable_update_run l (s : StableSet.t T) :
  StableSet.update (Iterable l) s =
  (Ok (len (foldl add_key (StableSet.__iter__ s) (first_occurrences l)) - 1)%Z,
   StableSet.mk (dict_update (StableSet._map s) (dict_fromkeys l tt))).
Proof.
  unfold StableSet.update, StableSet.__iter__. run_py. do 2 f_equal.
  rewrite <- (dict_keys_fromkeys l tt), <- dict_keys_update.
  unfold len, dict_keys. by rewrite length_fmap.
Qed.
End returned_positions.

(** ** [pop] and [popitem] *)

Section pop_facts.
Context {T : Type} `{EqDecision T}.
Implicit Types (x : T) (index : Z).

Lemma ordered_pop_empty index (m : dict T Z) :
  OrderedSet.pop index (OrderedSet.mk [] m) = (Raise KeyError, OrderedSet.mk [] m).
Proof. reflexivity. Qed.

Lemma ordered_pop_out_of_range index (s : OrderedSet.t T) :
  OrderedSet._items s ≠ [] → norm_index (OrderedSet._items s) index = None →
  OrderedSet.pop index s = (Raise IndexError, s).
Proof.
  destruct s as [[|y items] m]; [done|]. intros _ Hn.
  unfold OrderedSet.pop, OrderedSet.pop_at, list_getitem. step_py.
  cbn [OrderedSet._items] in Hn. by rewrite Hn.
Qed.

(** An index with an element: the element is returned, it leaves the
    sequence and its key leaves the map, whose other values stay. *)
Lemma ordered_pop_valid index (s : OrderedSet.t T) n x :
  norm_index (OrderedSet._items s) index = Some n →
  OrderedSet._items s !! n = Some x →
  dict_contains x (OrderedSet._map s) = true →
  OrderedSet.pop index s =
  (Ok x, OrderedSet.mk (delete n (OrderedSet._items s))
                       (dict_remove x (OrderedSet._map s))).
Proof.
  destruct s as [[|y items] m]; [done|]. intros Hn Hx Hc.
  unfold OrderedSet.pop, OrderedSet.pop_at, OrderedSet.set_items,
    OrderedSet.set_map, list_getitem, list_delitem, dict_delitem. step_py.
  cbn [OrderedSet._items OrderedSet._map] in Hn, Hx, Hc.
  by rewrite Hn, Hx, Hc.
Qed.

(** Popping the last element needs no repair of the map. *)
Lemma ordered_pop_last_position_inv (s : OrderedSet.t T) :
  position_inv s → OrderedSet._items s ≠ [] →
  ∃ x s', OrderedSet.pop (-1) s = (Ok x, s') ∧
          last (OrderedSet._items s) = Some x ∧ position_inv s'.
Proof.
  intros Hs Hne. pose proof Hs as [Hwf Hinv].
  set (n := length (OrderedSet._items s)).
  assert (0 < n)%nat as Hn.
  { unfold n. destruct (OrderedSet._items s); [done|simpl; lia]. }
  assert (norm_index (OrderedSet._items s) (-1) = Some (n - 1)%nat) as Hnorm.
  { unfold norm_index, len. fold n. simpl.
    rewrite (proj2 (Z.leb_le 0 _)) by lia. f_equal. lia. }
  destruct (lookup_lt_is_Some_2 (OrderedSet._items s) (n - 1)%nat) as [x Hx];
    [unfold n in *; lia|].
  assert (dict_get x (OrderedSet._map s) = Some (Z.of_nat (n - 1))) as Hget.
  { apply Hinv. split; [lia|]. by rewrite Nat2Z.id. }
  exists x. eexists. split; [|split].
  - apply (ordered_pop_valid _ _ _ _ Hnorm Hx).
    unfold dict_contains. by rewrite Hget.
  - rewrite last_lookup. by replace (pred (length (OrderedSet._items s)))
      with (n - 1)%nat by (unfold n; lia).
  - split; simpl; [by apply dict_remove_wf|]. intros y j.
    rewrite dict_get_remove by done. case_decide as Hy.
    + subst y. split; [done|]. intros [Hj Hd].
      destruct (decide (Z.to_nat j < n - 1)%nat).
      * rewrite list_lookup_delete_lt in Hd by done.
        assert (dict_get x (OrderedSet._map s) = Some j) by (apply Hinv; done).
        assert (j = Z.of_nat (n - 1)) by congruence. lia.
      * rewrite list_lookup_delete_ge in Hd by lia.
        apply lookup_lt_Some in Hd. unfold n in *. lia.
    + rewrite Hinv. split; intros [Hj Hd]; (split; [done|]).
      * rewrite list_lookup_delete_lt; [done|].
        pose proof (lookup_lt_Some _ _ _ Hd) as Hlt. fold n in Hlt.
        destruct (decide (Z.to_nat j = n - 1)%nat) as [Heq|]; [|lia].
        rewrite Heq in Hd. congruence.
      * destruct (decide (Z.to_nat j < n - 1)%nat).
        -- by rewrite list_lookup_delete_lt in Hd.
        -- rewrite list_lookup_delete_ge in Hd by lia.
           apply lookup_lt_Some in Hd. unfold n in *. lia.
Qed.

Lemma stable_pop_empty index :
  StableSet.pop index (StableSet.mk (T:=T) []) = (Raise KeyError, StableSet.mk []).
Proof. reflexivity. Qed.

(** StableSet: an index past the end ends in the [StopIteration] of
    [next]. *)
Lemma stable_pop_beyond index (s : StableSet.t T) :
  StableSet._map s ≠ [] →
  (len (StableSet._map s) ≤ index < sys_maxsize)%Z →
  StableSet.pop index s = (Raise StopIteration, s).
Proof.
  destruct s as [[|kv m]]; [done|]. intros _ Hi.
  unfold len in Hi. simpl in Hi.
  unfold StableSet.pop. run_py.
  rewrite !decide_False by lia. unfold islice_next.
  rewrite (proj2 (Z.ltb_ge index 0)), (proj2 (Z.ltb_ge sys_maxsize index)),
    (proj2 (Z.ltb_ge (index + 1) 0)), (proj2 (Z.ltb_ge sys_maxsize (index + 1))),
    (proj2 (Z.ltb_lt index (index + 1))) by lia.
  simpl. rewrite lookup_ge_None_2; [done|].
  change (kv.1 :: dict_keys m) with (dict_keys (kv :: m)).
  unfold dict_keys. rewrite length_fmap. simpl. lia.
Qed.

(** StableSet: an index below -1 ends in the [ValueError] of [islice]. *)
Lemma stable_pop_negative index (s : StableSet.t T) :
  StableSet._map s ≠ [] → (index < -1)%Z →
  StableSet.pop index s = (Raise ValueError, s).
Proof.
  destruct s as [[|kv m]]; [done|]. intros _ Hi.
  unfold StableSet.pop. run_py.
  rewrite !decide_False by lia. unfold islice_next.
  by rewrite (proj2 (Z.ltb_lt index 0)) by lia.
Qed.
End pop_facts.

(** ** [isorderedsubset] *)

Section ordered_subset.
Context {T : Type} `{EqDecision T}.
Implicit Types (self other : setlike T) (xs ys : list T).

Lemma sl_len_iter (a : setlike T) : sl_len a = len (sl_iter a).
Proof. destruct a; simpl; [apply len_iter|done]. Qed.

Lemma sublist_cons_same x xs ys :
  x :: xs `sublist_of` x :: ys ↔ xs `sublist_of` ys.
Proof.
  split; [|apply sublist_skip].
  rewrite sublist_cons_r. intros [Hs|(l' & [= <-] & Hs)]; [|done].
  etrans; [|exact Hs]. by apply sublist_cons.
Qed.

Lemma sublist_cons_other x y xs ys :
  y ≠ x → x :: xs `sublist_of` y :: ys ↔ x :: xs `sublist_of` ys.
Proof.
  intros Hne. split; [|apply sublist_cons].
  rewrite sublist_cons_r. intros [Hs|(l' & [= <-] & Hs)]; done.
Qed.

(** With [i] elements of [self] matched and at least one left, the loop
    answers whether the rest of [self] is a subsequence of the rest of
    [other]. *)
Lemma isorderedsubset_loop_spec self xs ys (i : nat) :
  (∀ j x, xs !! j = Some x → sl_getitem self (Z.of_nat j) = Ok x) →
  (i < length xs)%nat →
  ∃ b, isorderedsubset_loop self (len xs) ys (Z.of_nat i) = Ok b ∧
       (b = true ↔ drop i xs `sublist_of` ys).
Proof.
  intros Hget. revert i. induction ys as [|y ys IH]; intros i Hi; simpl.
  - exists false. split; [done|]. rewrite sublist_nil_r. split; [done|].
    intros Hd. apply (f_equal length) in Hd. rewrite length_drop in Hd.
    simpl in Hd. lia.
  - destruct (lookup_lt_is_Some_2 xs i Hi) as [x Hx].
    rewrite (Hget i x Hx), (drop_S _ _ _ Hx).
    destruct (decide (y = x)) as [->|Hne].
    + case_decide as Hlast.
      * exists true. split; [done|]. split; [intros _|done].
        apply sublist_skip. rewrite drop_ge; [apply sublist_nil_l|].
        unfold len in Hlast. lia.
      * destruct (IH (S i)) as (b & Hb & Hsub).
        { unfold len in Hlast. lia. }
        exists b. rewrite Nat2Z.inj_succ, <- Z.add_1_r in Hb.
        split; [done|]. by rewrite sublist_cons_same.
    + destruct (IH i Hi) as (b & Hb & Hsub). exists b. split; [done|].
      by rewrite sublist_cons_other, <- (drop_S _ _ _ Hx).
Qed.

(** For a non-empty [self] whose items [self[j]] are the ones it iterates
    over, the answer is whether [self] is a subsequence of [other]. *)
Lemma isorderedsubset_nonempty self other :
  sl_iter self ≠ [] →
  (∀ j x, sl_iter self !! j = Some x → sl_getitem self (Z.of_nat j) = Ok x) →
  ∃ b, isorderedsubset self other = Ok b ∧
       (b = true ↔ sl_iter self `sublist_of` sl_iter other).
Proof.
  intros Hne Hget. unfold isorderedsubset. rewrite !sl_len_iter.
  destruct (Z.gtb_spec (len (sl_iter self)) (len (sl_iter other))) as [Hgt|Hle].
  - exists false. split; [done|]. split; [done|].
    intros Hs%sublist_length. unfold len in Hgt. lia.
  - apply (isorderedsubset_loop_spec self (sl_iter self) (sl_iter other) 0 Hget).
    destruct (sl_iter self); [done|simpl; lia].
Qed.

Lemma isorderedsubset_seq xs ys :
  xs ≠ [] →
  ∃ b, isorderedsubset (Seq xs) (Seq ys) = Ok b ∧ (b = true ↔ xs `sublist_of` ys).
Proof.
  intros Hne. apply (isorderedsubset_nonempty (Seq xs) (Seq ys) Hne).
  intros j x Hx. simpl. apply list_getitem_nonneg; [lia|]. by rewrite Nat2Z.id.
Qed.

(** C5. [isorderedsubset] never answers true for an empty [self], of
    any class or a plain empty sequence, although the empty sequence is a
    subsequence of every [other]: it returns false when [other] is empty
    too and raises [IndexError] at [self[0]] otherwise. *)
Theorem isorderedsubset_empty_self (cls : klass) (other : setlike T) :
  [] `sublist_of` sl_iter other ∧
  isorderedsubset (Obj (new cls (Some []))) other =
    match sl_iter other with [] => Ok false | _ => Raise IndexError end ∧
  isorderedsubset (Seq []) other =
    match sl_iter other with [] => Ok false | _ => Raise IndexError end.
Proof.
  split; [apply sublist_nil_l|].
  assert ((0 >? sl_len other)%Z = false) as Hlen.
  { rewrite sl_len_iter. unfold len.
    destruct (Z.gtb_spec 0 (Z.of_nat (length (sl_iter other)))); [lia|done]. }
  split.
  - unfold isorderedsubset.
    replace (sl_len (Obj (new cls (Some [])))) with 0%Z by (by destruct cls).
    rewrite Hlen. destruct (sl_iter other); [done|]. by destruct cls.
  - unfold isorderedsubset. change (sl_len (Seq (T:=T) [])) with 0%Z.
    rewrite Hlen. by destruct (sl_iter other).
Qed.
End ordered_subset.

(** ** The claims on containers of integers *)

Section scenarios.
Local Open Scope Z_scope.

(** C1. [StableSet.add] returns [len(self._map) - 1] also when the key is
    already in the set at an earlier position: on [StableSet([1, 2, 3])],
    [add(1)] leaves the set as it is and returns 2, while the index of 1
    is 0; [OrderedSet.add] returns 0 there. *)
Theorem stable_add_present_returns_last :
  let s := StableSet.__init__ (Some [1; 2; 3]) in
  let o := OrderedSet.__init__ (Some [1; 2; 3]) in
  StableSet.__contains__ s 1 = true ∧
  StableSet.index s 1 = Ok 0 ∧
  StableSet.add 1 s = (Ok 2, s) ∧
  OrderedSet.add 1 o = (Ok 0, o).
Proof. repeat split. Qed.

(** C2. [OrderedSet.pop] and [popitem] delete the element from the
    sequence and its key from the map and repair nothing: from
    [OrderedSet([1, 2, 3])], [pop(0)] and [popitem(last=False)] leave the
    items [2, 3] with the map [{2: 1, 3: 2}], so [index(2)] is 1 while
    [self[1]] is 3, and the invariant is lost; [discard(1)] leaves the map
    [{2: 0, 3: 1}]. *)
Theorem ordered_pop_first_keeps_old_positions :
  let s := OrderedSet.__init__ (Some [1; 2; 3]) in
  let s' := OrderedSet.mk [2; 3] [(2, 1); (3, 2)] in
  position_inv s ∧
  OrderedSet.pop 0 s = (Ok 1, s') ∧
  OrderedSet.popitem false s = (Ok 1, s') ∧
  OrderedSet.index s' 2 = Ok 1 ∧
  OrderedSet.__getitem__ s' 1 = Ok 3 ∧
  ¬ position_inv s' ∧
  OrderedSet.discard 1 s = (Ok tt, OrderedSet.mk [2; 3] [(2, 0); (3, 1)]).
Proof.
  intros s s'. split_and!; try reflexivity.
  - apply canonical_position_inv, new_canonical.
  - intros [_ Hinv]. destruct (Hinv 2 1) as [Hpos _].
    destruct (Hpos eq_refl) as [_ Hitem]. discriminate Hitem.
Qed.

(** C4. [StableSet.update] returns [len(self._map) - 1], which is not
    the position of the last element processed when that element was
    already in the set: on [StableSet([1, 2, 3])], [update([1])] returns 2
    while the index of 1 is 0, and [OrderedSet.update] returns 0 there.
    With [[3, 1, 5, 1, 4]] both classes end in the order [1, 2, 3, 5, 4]
    and return 4, and both raise [ValueError] for an argument that is not
    iterable. *)
Theorem stable_update_returns_last_position :
  let s := StableSet.__init__ (Some [1; 2; 3]) in
  let o := OrderedSet.__init__ (Some [1; 2; 3]) in
  StableSet.update (Iterable [1]) s = (Ok 2, s) ∧
  StableSet.index s 1 = Ok 0 ∧
  OrderedSet.update (Iterable [1]) o = (Ok 0, o) ∧
  StableSet.update (Iterable [3; 1; 5; 1; 4]) s =
    (Ok 4, StableSet.__init__ (Some [1; 2; 3; 5; 4])) ∧
  OrderedSet.update (Iterable [3; 1; 5; 1; 4]) o =
    (Ok 4, OrderedSet.__init__ (Some [1; 2; 3; 5; 4])) ∧
  StableSet.update NotIterable s = (Raise ValueError, s) ∧
  OrderedSet.update NotIterable o = (Raise ValueError, o).
Proof. repeat split. Qed.

(** C6. [StableSet.pop] with an index that has no element does not
    raise [IndexError]: on [StableSet([1, 2, 3])], [pop(5)] raises
    [StopIteration] and [pop(-2)] raises [ValueError]; [OrderedSet.pop(5)]
    raises [IndexError].  On an empty container both raise [KeyError], and
    with a valid index, or none, both remove and return the element at
    that position. *)
Theorem stable_pop_out_of_range_not_IndexError :
  let s := StableSet.__init__ (Some [1; 2; 3]) in
  let o := OrderedSet.__init__ (Some [1; 2; 3]) in
  StableSet.pop 5 s = (Raise StopIteration, s) ∧
  StableSet.pop (-2) s = (Raise ValueError, s) ∧
  OrderedSet.pop 5 o = (Raise IndexError, o) ∧
  StableSet.pop (-1) (StableSet.__init__ (T:=Z) (Some [])) =
    (Raise KeyError, StableSet.__init__ (Some [])) ∧
  OrderedSet.pop (-1) (OrderedSet.__init__ (T:=Z) (Some [])) =
    (Raise KeyError, OrderedSet.__init__ (Some [])) ∧
  StableSet.pop 1 s = (Ok 2, StableSet.__init__ (Some [1; 3])) ∧
  StableSet.pop (-1) s = (Ok 3, StableSet.__init__ (Some [1; 2])) ∧
  OrderedSet.pop (-1) o = (Ok 3, OrderedSet.__init__ (Some [1; 2])) ∧
  (OrderedSet.pop 1 o).1 = Ok 2 ∧
  OrderedSet._items (OrderedSet.pop 1 o).2 = [1; 3].
Proof. repeat split. Qed.

(** C7. [A.symmetric_difference(B)] is a new container of A's class that
    holds exactly the elements in exactly one of A and B: first those of
    A that are not in B, in A's order, then those of B that are not in A,
    in B's order.  For A = [1, 4, 3, 5, 7] and B = [9, 7, 1, 3, 2], of any
    class, it is [4, 5, 9, 2]. *)
Theorem symmetric_difference_order :
  (∀ (T : Type) (eq_dec : EqDecision T) (A B : object T),
     NoDup (__iter__ A) → NoDup (__iter__ B) →
     let R := symmetric_difference A (__iter__ B) in
     type R = type A ∧
     __iter__ R = filter (λ x, x ∉ __iter__ B) (__iter__ A) ++
                  filter (λ x, x ∉ __iter__ A) (__iter__ B) ∧
     ∀ x, x ∈ __iter__ R ↔
          (x ∈ __iter__ A ∧ x ∉ __iter__ B) ∨ (x ∈ __iter__ B ∧ x ∉ __iter__ A)) ∧
  (∀ cls cls',
     symmetric_difference (new cls (Some [1; 4; 3; 5; 7]))
                          (__iter__ (new cls' (Some [9; 7; 1; 3; 2]))) =
     new cls (Some [4; 5; 9; 2])).
Proof.
  split.
  - intros T eq_dec A B. apply symmetric_difference_spec.
  - by intros [] [].
Qed.

Lemma symmetric_difference_order_witness :
  let A := new cls_OrderedSet (Some [1; 4; 3; 5; 7]) in
  let B := new cls_StableSet (Some [9; 7; 1; 3; 2]) in
  NoDup (__iter__ A) ∧ NoDup (__iter__ B) ∧
  __iter__ (symmetric_difference A (__iter__ B)) =
    filter (λ x, x ∉ __iter__ B) (__iter__ A) ++
    filter (λ x, x ∉ __iter__ A) (__iter__ B).
Proof.
  intros A B.
  assert (NoDup (__iter__ A)) as HA
    by (unfold A; rewrite iter_new; apply NoDup_first_occurrences).
  assert (NoDup (__iter__ B)) as HB
    by (unfold B; rewrite iter_new; apply NoDup_first_occurrences).
  split_and!; [exact HA|exact HB|].
  exact (proj1 (proj2 (proj1 symmetric_difference_order Z _ A B HA HB))).
Defined.

Lemma reindexing_invariant_witness :
  let s := OrderedSet.__init__ (Some [1; 4; 3; 5; 7]) in
  position_inv s ∧
  ∃ s', run [Discard 4; Add 9; Add 1; Discard 8] s = (Ok tt, s') ∧
        position_inv s' ∧
        ∀ x, OrderedSet.__contains__ s' x = true →
             ∃ i, OrderedSet.index s' x = Ok i ∧ OrderedSet.__getitem__ s' i = Ok x.
Proof.
  intros s.
  assert (position_inv s) as Hs by apply canonical_position_inv, new_canonical.
  split; [exact Hs|].
  exact (proj1 (reindexing_invariant s [Discard 4; Add 9; Add 1; Discard 8] Hs)).
Defined.

Lemma getstate_setstate_round_trip_witness :
  let C := new cls_OrderedSet (Some [3; 1; 4; 1; 5]) in
  let self0 := new cls_OrderedSet None in
  type self0 = type C ∧ NoDup (__iter__ C) ∧
  __iter__ (__setstate__ self0 (__getstate__ C)) = __iter__ C.
Proof.
  intros C self0.
  assert (NoDup (__iter__ C)) as HC
    by (unfold C; rewrite iter_new; apply NoDup_first_occurrences).
  split_and!; [reflexivity|exact HC|].
  exact (proj1 (proj2 (getstate_setstate_round_trip C self0 eq_refl HC))).
Defined.

Lemma copy_new_object_witness :
  let C := new cls_StableSetEq (Some [1; 2; 3]) in
  let D := new cls_OrderedSet (Some [7; 8]) in
  [D; C] !! 1%nat = Some C ∧ NoDup (__iter__ C) ∧
  ∃ a' h' C',
    Ref.copy 1%nat [D; C] = Some (a', h') ∧
    a' ≠ 1%nat ∧ [D; C] !! a' = None ∧
    h' !! 1%nat = Some C ∧ (∀ b o, [D; C] !! b = Some o → h' !! b = Some o) ∧
    h' !! a' = Some C' ∧ C' = copy C ∧
    type C' = type C ∧ __iter__ C' = __iter__ C ∧ (wf C → C' = C).
Proof.
  intros C D.
  assert (NoDup (__iter__ C)) as HC
    by (unfold C; rewrite iter_new; apply NoDup_first_occurrences).
  split_and!; [reflexivity|exact HC|].
  exact (copy_new_object [D; C] 1%nat C eq_refl HC).
Defined.
End scenarios.

(** * Further properties of the methods *)

(** ** Construction, [add] and [update] *)

Section construction.
Context {T : Type} `{EqDecision T}.
Implicit Types (key x : T) (l : list T) (cls : klass).

Lemma dict_setitem_twice {V} key (v : V) (d : dict T V) :
  dict_setitem key v (dict_setitem key v d) = dict_setitem key v d.
Proof.
  induction d as [|[k' v'] d IH]; simpl.
  - by rewrite decide_True.
  - case_decide as Hk; simpl; rewrite ?decide_True, ?decide_False by done; [done|].
    by rewrite IH.
Qed.

Lemma contains_iter (self : object T) x :
  __contains__ self x = true ↔ x ∈ __iter__ self.
Proof. destruct self as [b [m]|[items m]]; apply dict_contains_true. Qed.

Lemma new_wf cls l : wf (new cls (Some l)).
Proof.
  destruct cls; cbn [new wf]; rewrite ?stable_init; try apply new_canonical;
    unfold dict_wf; cbn [StableSet._map]; rewrite dict_keys_const;
    apply NoDup_first_occurrences.
Qed.

(** X1. A container built from a sequence, of any of the three classes,
    holds the elements of the sequence once each, in the order of their
    first occurrences: its length is the number of distinct elements, it
    contains exactly the elements of the sequence, and it is well formed
    (for an OrderedSet: every element is mapped to its position). *)
Theorem constructor_first_occurrences cls l :
  let C := new cls (Some l) in
  type C = cls ∧
  __iter__ C = first_occurrences l ∧
  NoDup (__iter__ C) ∧
  __len__ C = len (first_occurrences l) ∧
  (∀ x, __contains__ C x = true ↔ x ∈ l) ∧
  wf C ∧
  (∀ o, C = Ordered o → position_inv o).
Proof.
  intros C. unfold C. split_and!.
  - apply type_new.
  - apply iter_new.
  - rewrite iter_new. apply NoDup_first_occurrences.
  - apply len_new.
  - intros x. by rewrite contains_iter, iter_new, elem_of_first_occurrences.
  - apply new_wf.
  - intros o Ho. apply canonical_position_inv.
    pose proof (new_wf cls l) as Hwf. by rewrite Ho in Hwf.
Qed.

(** X2. Adding a key a second time changes nothing: the second [add]
    returns what the first returned and leaves the container as the first
    left it, for a StableSet and for an OrderedSet in any state. *)
Theorem add_twice_same key :
  (∀ s : StableSet.t T,
     StableSet.add key (StableSet.add key s).2 = StableSet.add key s) ∧
  (∀ o : OrderedSet.t T,
     OrderedSet.add key (OrderedSet.add key o).2 = OrderedSet.add key o).
Proof.
  split.
  - intros s. rewrite (stable_add_run key s). cbn [snd].
    rewrite stable_add_run. unfold StableSet.__iter__. cbn [StableSet._map].
    by rewrite <- !(dict_keys_setitem key tt), dict_setitem_twice.
  - intros o. rewrite (add_run key o).
    destruct (dict_get key (OrderedSet._map o)) as [i|] eqn:E; cbn [snd].
    + by rewrite add_run, E.
    + rewrite add_run. cbn [OrderedSet._map OrderedSet._items].
      by rewrite dict_get_setitem, decide_True.
Qed.

(** X3. [OrderedSet.add] never moves an element: every element keeps the
    index it had and the old sequence is a prefix of the new one; a key
    that was absent gets an index above the index of every element that
    was there. *)
Theorem ordered_add_keeps_positions key (s : OrderedSet.t T) :
  position_inv s →
  let s' := (OrderedSet.add key s).2 in
  (∀ x i, OrderedSet.index s x = Ok i → OrderedSet.index s' x = Ok i) ∧
  OrderedSet._items s `prefix_of` OrderedSet._items s' ∧
  (OrderedSet.__contains__ s key = false →
   ∀ x i j, OrderedSet.index s x = Ok i → OrderedSet.index s' key = Ok j →
            (i < j)%Z).
Proof.
  intros Hs s'. unfold s'. rewrite add_run.
  unfold OrderedSet.__contains__, dict_contains.
  destruct (dict_get key (OrderedSet._map s)) as [k|] eqn:E; cbn [snd].
  - split_and!; [done|done|done].
  - split_and!.
    + intros x i Hi%index_Ok. apply index_Ok. cbn [OrderedSet._map].
      rewrite dict_get_setitem, decide_False; [done|]. intros ->. congruence.
    + by apply prefix_app_r.
    + intros _ x i j Hi%index_Ok Hj%index_Ok. cbn [OrderedSet._map] in Hj.
      rewrite dict_get_setitem, decide_True in Hj by done.
      injection Hj as <-. by apply (position_inv_lt s x i Hs).
Qed.

Lemma ordered_update_loop_iter l i0 (s : OrderedSet.t T) :
  ∃ i s', OrderedSet.update_loop l i0 s = (Ok i, s') ∧
          OrderedSet.__iter__ s' = foldl add_key (OrderedSet.__iter__ s) l.
Proof.
  revert i0 s. induction l as [|x l IH]; intros i0 s; simpl.
  - by exists i0, s.
  - unfold bind. rewrite add_run.
    destruct (dict_get x (OrderedSet._map s)) as [i|] eqn:E.
    + destruct (IH i s) as (j & s' & -> & Hiter). exists j, s'. split; [done|].
      rewrite Hiter. f_equal. unfold add_key. rewrite decide_True; [done|].
      apply dict_contains_true. unfold dict_contains. by rewrite E.
    + edestruct IH as (j & s' & -> & Hiter). exists j, s'. split; [done|].
      rewrite Hiter. f_equal. unfold OrderedSet.__iter__. cbn [OrderedSet._map].
      by rewrite dict_keys_setitem.
Qed.

(** X4. [update] with an iterable never raises and keeps the elements
    that were there in their order, followed by the new elements of the
    argument in the order of their first occurrences; a StableSet and an
    OrderedSet are iterated alike afterwards. *)
Theorem update_appends_new_elements l :
  (∀ s : StableSet.t T, ∃ i s',
     StableSet.update (Iterable l) s = (Ok i, s') ∧
     StableSet.__iter__ s' =
       StableSet.__iter__ s ++
       filter (λ x, x ∉ StableSet.__iter__ s) (first_occurrences l)) ∧
  (∀ o : OrderedSet.t T, ∃ i o',
     OrderedSet.update (Iterable l) o = (Ok i, o') ∧
     OrderedSet.__iter__ o' =
       OrderedSet.__iter__ o ++
       filter (λ x, x ∉ OrderedSet.__iter__ o) (first_occurrences l)).
Proof.
  split.
  - intros s. rewrite stable_update_run. eexists _, _. split; [done|].
    unfold StableSet.__iter__. cbn [StableSet._map].
    by rewrite dict_keys_update, dict_keys_fromkeys, foldl_add_key,
      first_occurrences_idemp.
  - intros o. destruct (ordered_update_loop_iter l 0%Z o) as (i & o' & Hrun & Hiter).
    exists i, o'. split; [done|]. by rewrite Hiter, foldl_add_key.
Qed.

(** X5. On an OrderedSet that satisfies the position invariant, [update]
    with a non-empty iterable returns the index of its last element, and
    the invariant holds afterwards. *)
Theorem ordered_update_returns_index_of_last l x (s : OrderedSet.t T) :
  position_inv s →
  ∃ i s', OrderedSet.update (Iterable (l ++ [x])) s = (Ok i, s') ∧
          position_inv s' ∧
          OrderedSet.index s' x = Ok i ∧
          OrderedSet.__getitem__ s' i = Ok x.
Proof.
  intros Hs. destruct (ordered_update_last l x s Hs) as (i & s' & Hrun & Hs' & Hi).
  exists i, s'. split_and!; [done..|].
  destruct (position_inv_getitem s' x Hs') as (j & Hj & Hget); [|congruence].
  apply index_Ok in Hi. unfold OrderedSet.__contains__, dict_contains. by rewrite Hi.
Qed.
End construction.

(** ** Positions: [index], [self[i]], [discard], [pop] and [popitem] *)

Section positions.
Context {T : Type} `{EqDecision T}.
Implicit Types (key x : T) (l : list T) (index : Z).

Lemma filter_ne_delete l n x :
  NoDup l → l !! n = Some x → filter (λ y, y ≠ x) l = delete n l.
Proof.
  intros Hnd. revert n. induction Hnd as [|y l Hnin Hnd IH]; intros n Hn; [done|].
  destruct n as [|n]; simpl in Hn.
  - injection Hn as ->. rewrite filter_cons_False by (intros ?; done).
    simpl. apply filter_all. intros z Hz ->. done.
  - rewrite filter_cons_True.
    + simpl. f_equal. by apply IH.
    + intros ->. apply Hnin. by eapply list_elem_of_lookup_2.
Qed.

Lemma dict_keys_remove {V} key (d : dict T V) :
  dict_wf d → dict_keys (dict_remove key d) = filter (λ y, y ≠ key) (dict_keys d).
Proof.
  unfold dict_wf. induction d as [|[k v] d IH]; simpl; [done|].
  rewrite NoDup_cons. intros [Hnin Hnd]. case_decide as Hk.
  - subst k. rewrite filter_cons_False by (intros ?; done).
    symmetry. apply filter_all. intros z Hz ->. done.
  - rewrite filter_cons_True by done. simpl. f_equal. by apply IH.
Qed.

Lemma stable_getitem_lookup (s : StableSet.t T) index :
  (0 ≤ index < sys_maxsize)%Z →
  StableSet.__getitem__ s index =
  match StableSet.__iter__ s !! Z.to_nat index with
  | Some x => Ok x
  | None => Raise IndexError
  end.
Proof.
  intros Hi. unfold StableSet.__getitem__, StableSet.__iter__, islice_next.
  rewrite (proj2 (Z.ltb_ge index 0)), (proj2 (Z.ltb_ge sys_maxsize index)),
    (proj2 (Z.ltb_ge (index + 1) 0)), (proj2 (Z.ltb_ge sys_maxsize (index + 1))),
    (proj2 (Z.ltb_lt index (index + 1))) by lia.
  simpl. by destruct (_ !! _).
Qed.

Lemma stable_getitem_Ok (s : StableSet.t T) index x :
  StableSet.__getitem__ s index = Ok x →
  (0 ≤ index)%Z ∧ StableSet.__iter__ s !! Z.to_nat index = Some x.
Proof.
  unfold StableSet.__getitem__, StableSet.__iter__, islice_next.
  destruct (Z.ltb_spec index 0); simpl; [done|].
  destruct (_ || _ || _); [done|].
  destruct (index <? index + 1)%Z; [|done].
  destruct (_ !! _) as [y|]; [|done]. by intros [= ->].
Qed.

(** X6. [StableSet.index] and [self[i]] are inverse to each other: the
    index found for a key is a position below [len(self)] at which
    [self[i]] gives the key back, a key has no index ([KeyError]) exactly
    when it is not in the set, and the element found at a position that is
    not negative has that position as its index. *)
Theorem stable_index_getitem (s : StableSet.t T) :
  (StableSet.__len__ s ≤ sys_maxsize)%Z →
  dict_wf (StableSet._map s) →
  (∀ key i, StableSet.index s key = Ok i →
            (0 ≤ i < StableSet.__len__ s)%Z ∧ StableSet.__getitem__ s i = Ok key) ∧
  (∀ key, StableSet.index s key = Raise KeyError ↔
          StableSet.__contains__ s key = false) ∧
  (∀ i x, StableSet.__getitem__ s i = Ok x → StableSet.index s x = Ok i).
Proof.
  intros Hmax Hwf.
  assert (StableSet.__len__ s = len (StableSet.__iter__ s)) as Hlen.
  { unfold StableSet.__len__, StableSet.__iter__, len, dict_keys.
    by rewrite length_fmap. }
  split_and!.
  - intros key i. unfold StableSet.index. fold (StableSet.__iter__ s).
    destruct (list_find _ _) as [[n y]|] eqn:E; [|done].
    intros [= <-]. apply list_find_Some in E as (Hn & -> & _).
    pose proof (lookup_lt_Some _ _ _ Hn) as Hlt.
    rewrite Hlen. unfold len. split; [lia|].
    rewrite stable_getitem_lookup by (rewrite Hlen in Hmax; unfold len in Hmax; lia).
    by rewrite Nat2Z.id, Hn.
  - intros key. unfold StableSet.index, StableSet.__contains__.
    rewrite dict_contains_false.
    destruct (list_find _ _) as [[n y]|] eqn:E.
    + apply list_find_Some in E as (Hn & -> & _). split; [done|].
      intros Hnin. exfalso. apply Hnin. by eapply list_elem_of_lookup_2.
    + split; [intros _|done]. intros Hin.
      apply list_find_None in E. rewrite Forall_forall in E. by apply (E key).
  - intros i x [Hi Hx]%stable_getitem_Ok. unfold StableSet.index.
    fold (StableSet.__iter__ s).
    assert (list_find (λ item, item = x) (StableSet.__iter__ s)
            = Some (Z.to_nat i, x)) as ->.
    { apply list_find_Some. split_and!; [done..|].
      intros j y Hj Hlt ->.
      pose proof (NoDup_lookup _ _ _ _ Hwf Hj Hx). lia. }
    f_equal. lia.
Qed.

(** X7. On an OrderedSet that satisfies the position invariant, the
    element [self[i]] has the position [i] denotes as its index, also for
    a negative [i], which counts from the end; a key has no index
    ([KeyError]) exactly when it is not in the set, and an index outside
    [-len, len) raises [IndexError]. *)
Theorem ordered_index_getitem (s : OrderedSet.t T) :
  position_inv s →
  (∀ i x, OrderedSet.__getitem__ s i = Ok x →
          OrderedSet.index s x =
            Ok (if (0 <=? i)%Z then i else (len (OrderedSet._items s) + i)%Z)) ∧
  (∀ x, OrderedSet.index s x = Raise KeyError ↔ OrderedSet.__contains__ s x = false) ∧
  (∀ i, (i < - len (OrderedSet._items s) ∨ len (OrderedSet._items s) ≤ i)%Z →
        OrderedSet.__getitem__ s i = Raise IndexError).
Proof.
  intros [Hwf Hinv]. split_and!.
  - intros i x. unfold OrderedSet.__getitem__, list_getitem, norm_index.
    intros Hget. apply index_Ok, Hinv.
    destruct (Z.leb_spec 0 i).
    + destruct (Z.ltb_spec i (len (OrderedSet._items s))); [|done].
      destruct (_ !! _) as [y|] eqn:E; [|done]. injection Hget as ->. done.
    + destruct (Z.leb_spec 0 (len (OrderedSet._items s) + i)); [|done].
      destruct (_ !! _) as [y|] eqn:E; [|done]. injection Hget as ->. done.
  - intros x. unfold OrderedSet.index, OrderedSet.__contains__, dict_contains.
    by destruct (dict_get _ _).
  - intros i Hi. unfold OrderedSet.__getitem__, list_getitem, norm_index.
    destruct (Z.leb_spec 0 i).
    + destruct (Z.ltb_spec i (len (OrderedSet._items s))); [|done].
      unfold len in *. lia.
    + destruct (Z.leb_spec 0 (len (OrderedSet._items s) + i)); [|done].
      unfold len in *. lia.
Qed.

(** X8. [StableSet.discard] never raises: it takes the key out and leaves
    the other elements in their order, and does nothing when the key is
    not in the set. *)
Theorem stable_discard_removes key (s : StableSet.t T) :
  dict_wf (StableSet._map s) →
  ∃ s', StableSet.discard key s = (Ok tt, s') ∧
        StableSet.__iter__ s' = filter (λ y, y ≠ key) (StableSet.__iter__ s) ∧
        StableSet.__contains__ s' key = false ∧
        dict_wf (StableSet._map s') ∧
        (StableSet.__contains__ s key = false → s' = s).
Proof.
  intros Hwf. eexists. split; [done|]. cbn [StableSet._map].
  unfold StableSet.__iter__, StableSet.__contains__. cbn [StableSet._map].
  split_and!.
  - by apply dict_keys_remove.
  - apply dict_contains_false. rewrite dict_keys_remove by done.
    rewrite list_elem_of_filter. by intros [? _].
  - by apply dict_remove_wf.
  - intros Hc%dict_contains_false. destruct s as [m]. simpl in *.
    by rewrite dict_remove_absent.
Qed.
End positions.

Section popping.
Context {T : Type} `{EqDecision T}.
Implicit Types (key x : T) (l : list T) (index : Z).

Lemma dict_popitem_snoc {V} (d : dict T V) (kv : T * V) :
  dict_popitem (d ++ [kv]) = Ok (kv, d).
Proof. unfold dict_popitem. by rewrite last_snoc, removelast_last. Qed.

Lemma stable_pop_last (m : dict T unit) x :
  StableSet.pop (-1) (StableSet.mk (m ++ [(x, tt)])) = (Ok x, StableSet.mk m).
Proof.
  unfold StableSet.pop. step_py. destruct (m ++ [(x, tt)]) eqn:E.
  - by destruct m.
  - rewrite <- E. rewrite decide_True by done. by rewrite dict_popitem_snoc.
Qed.

Lemma stable_pop_at (s : StableSet.t T) index x :
  dict_wf (StableSet._map s) →
  (0 ≤ index < sys_maxsize)%Z →
  StableSet.__iter__ s !! Z.to_nat index = Some x →
  StableSet.pop index s = (Ok x, StableSet.mk (dict_remove x (StableSet._map s))).
Proof.
  intros Hwf Hi Hx. destruct s as [m]. unfold StableSet.__iter__ in Hx.
  cbn [StableSet._map] in *.
  assert (dict_contains x m = true) as Hc.
  { apply dict_contains_true. by eapply list_elem_of_lookup_2. }
  unfold StableSet.pop, dict_delitem. step_py.
  destruct m as [|kv m]; [done|]. rewrite decide_False by lia.
  destruct (decide (index = 0%Z)) as [->|Hne].
  - simpl in Hx. injection Hx as Hx. simpl. rewrite Hx. by rewrite Hc.
  - unfold islice_next.
    rewrite (proj2 (Z.ltb_ge index 0)), (proj2 (Z.ltb_ge sys_maxsize index)),
      (proj2 (Z.ltb_ge (index + 1) 0)), (proj2 (Z.ltb_ge sys_maxsize (index + 1))),
      (proj2 (Z.ltb_lt index (index + 1))) by lia.
    cbn [orb]. rewrite Hx. by rewrite Hc.
Qed.

(** X9. [StableSet.pop] with an index from -1 on that has an element
    returns that element and takes it out, the others keeping their
    order; [pop()] takes the element added last. *)
Theorem stable_pop_valid (s : StableSet.t T) index n x :
  dict_wf (StableSet._map s) →
  (StableSet.__len__ s ≤ sys_maxsize)%Z →
  (-1 ≤ index)%Z →
  norm_index (StableSet.__iter__ s) index = Some n →
  StableSet.__iter__ s !! n = Some x →
  ∃ s', StableSet.pop index s = (Ok x, s') ∧
        StableSet.__iter__ s' = delete n (StableSet.__iter__ s) ∧
        StableSet.__contains__ s' x = false.
Proof.
  intros Hwf Hmax Hidx Hn Hx.
  assert (StableSet.__len__ s = len (StableSet.__iter__ s)) as Hlen.
  { unfold StableSet.__len__, StableSet.__iter__, len, dict_keys.
    by rewrite length_fmap. }
  pose proof (lookup_lt_Some _ _ _ Hx) as Hlt.
  assert (∀ s', StableSet.__iter__ s' = delete n (StableSet.__iter__ s) →
                StableSet.__contains__ s' x = false) as Hgone.
  { intros s' Hs'. apply dict_contains_false. fold (StableSet.__iter__ s').
    rewrite Hs'. unfold StableSet.__iter__.
    rewrite <- (filter_ne_delete _ _ x Hwf Hx), list_elem_of_filter.
    by intros [? _]. }
  unfold norm_index in Hn. destruct (Z.leb_spec 0 index).
  - destruct (Z.ltb_spec index (len (StableSet.__iter__ s))); [|done].
    injection Hn as <-.
    rewrite (stable_pop_at s index x Hwf) by (done || lia).
    eexists. split; [done|].
    assert (StableSet.__iter__ (StableSet.mk (dict_remove x (StableSet._map s)))
            = delete (Z.to_nat index) (StableSet.__iter__ s)) as Hit.
    { unfold StableSet.__iter__. cbn [StableSet._map].
      rewrite dict_keys_remove by done. by apply filter_ne_delete. }
    split; [done|]. by apply Hgone.
  - assert (index = -1)%Z as -> by lia.
    destruct (Z.leb_spec 0 (len (StableSet.__iter__ s) + -1)); [|done].
    injection Hn as <-. destruct s as [m]. unfold StableSet.__iter__ in *.
    cbn [StableSet._map] in *.
    destruct m as [|kv0 m0] using rev_ind; [done|]. clear IHm0.
    destruct kv0 as [k []].
    unfold dict_keys, len in *. rewrite fmap_app, length_app in *. simpl in *.
    replace (Z.to_nat (Z.of_nat (length m0.*1 + 1) + -1)) with (length m0.*1) in * by lia.
    rewrite list_lookup_middle in Hx by done. injection Hx as ->.
    rewrite stable_pop_last. eexists. split; [done|].
    assert ((StableSet._map (StableSet.mk m0)).*1
            = delete (length m0.*1) (m0.*1 ++ [x])) as Hit.
    { by rewrite delete_middle, app_nil_r. }
    split; [done|]. by apply Hgone.
Qed.

Lemma stable_popitem_pop last (s : StableSet.t T) :
  StableSet.popitem last s = StableSet.pop (if last then -1 else 0)%Z s.
Proof.
  unfold StableSet.popitem, StableSet.pop. step_py.
  destruct (StableSet._map s); [done|]. by destruct last.
Qed.

(** X10. [StableSet.popitem] is last in, first out by default and first
    in, first out with [last=False]: it returns the element at that end,
    the others keep their order; on an empty set it raises [KeyError] and
    leaves the set empty. *)
Theorem stable_popitem_ends (s : StableSet.t T) :
  dict_wf (StableSet._map s) →
  (∀ x rest, StableSet.__iter__ s = x :: rest →
     ∃ s', StableSet.popitem false s = (Ok x, s') ∧ StableSet.__iter__ s' = rest) ∧
  (∀ x front, StableSet.__iter__ s = front ++ [x] →
     ∃ s', StableSet.popitem true s = (Ok x, s') ∧ StableSet.__iter__ s' = front) ∧
  (StableSet.__iter__ s = [] →
     ∀ last, StableSet.popitem last s = (Raise KeyError, s)).
Proof.
  intros Hwf. split_and!.
  - intros x rest Hs. rewrite stable_popitem_pop.
    rewrite (stable_pop_at s 0%Z x Hwf) by (done || by rewrite Hs).
    eexists. split; [done|]. unfold StableSet.__iter__ in *.
    cbn [StableSet._map]. rewrite dict_keys_remove by done.
    rewrite (filter_ne_delete _ 0 x) by (done || by rewrite Hs). by rewrite Hs.
  - intros x front Hs. rewrite stable_popitem_pop. destruct s as [m].
    unfold StableSet.__iter__ in *. cbn [StableSet._map] in *.
    destruct m as [|[k []] m0] using rev_ind.
    { by destruct front. }
    clear IHm0. unfold dict_keys in Hs. rewrite fmap_app in Hs. simpl in Hs.
    apply app_inj_tail in Hs as [Hfront ->].
    rewrite stable_pop_last. by eexists.
  - intros Hs last. destruct s as [[|kv m]]; [|done]. by destruct last.
Qed.

(** X11. [OrderedSet.pop] on an OrderedSet that satisfies the position
    invariant: an empty set raises [KeyError] and an index outside
    [-len, len) raises [IndexError], both leaving the set as it was;
    any other index returns the element at the position it denotes,
    deletes it from the sequence and takes its key out of the map, the
    recorded positions of the other elements staying what they were. *)
Theorem ordered_pop_element (s : OrderedSet.t T) index :
  position_inv s →
  (OrderedSet._items s = [] → OrderedSet.pop index s = (Raise KeyError, s)) ∧
  (OrderedSet._items s ≠ [] → norm_index (OrderedSet._items s) index = None →
     OrderedSet.pop index s = (Raise IndexError, s)) ∧
  (∀ n, norm_index (OrderedSet._items s) index = Some n →
     ∃ x s', OrderedSet.pop index s = (Ok x, s') ∧
             OrderedSet._items s !! n = Some x ∧
             OrderedSet._items s' = delete n (OrderedSet._items s) ∧
             OrderedSet.__contains__ s' x = false ∧
             ∀ y, y ≠ x → OrderedSet.index s' y = OrderedSet.index s y).
Proof.
  intros Hs. split_and!.
  - intros Hnil. destruct s as [items m]. simpl in Hnil. by subst items.
  - apply ordered_pop_out_of_range.
  - intros n Hn. pose proof Hs as [Hwf Hinv].
    assert (n < length (OrderedSet._items s))%nat as Hlt.
    { unfold norm_index, len in Hn.
      destruct (Z.leb_spec 0 index).
      - destruct (Z.ltb_spec index (Z.of_nat (length (OrderedSet._items s))));
          [|done]. injection Hn as <-. lia.
      - destruct (Z.leb_spec 0 (Z.of_nat (length (OrderedSet._items s)) + index));
          [|done]. injection Hn as <-. lia. }
    destruct (lookup_lt_is_Some_2 _ _ Hlt) as [x Hx].
    assert (dict_get x (OrderedSet._map s) = Some (Z.of_nat n)) as Hget.
    { apply Hinv. split; [lia|]. by rewrite Nat2Z.id. }
    exists x. eexists. split_and!.
    + apply (ordered_pop_valid _ _ _ _ Hn Hx). unfold dict_contains. by rewrite Hget.
    + done.
    + done.
    + unfold OrderedSet.__contains__, dict_contains. cbn [OrderedSet._map].
      by rewrite dict_get_remove, decide_True.
    + intros y Hy. unfold OrderedSet.index. cbn [OrderedSet._map].
      by rewrite dict_get_remove, decide_False.
Qed.

(** X12. [OrderedSet.pop()] and [popitem()], which take the last
    element, return it and remove it: the items afterwards are the items
    before without their last one, the element is no longer in the set,
    every other element keeps its index, and the position invariant
    holds afterwards. *)
Theorem ordered_pop_last_keeps_invariant (s : OrderedSet.t T) :
  position_inv s → OrderedSet._items s ≠ [] →
  ∃ x s', OrderedSet.pop (-1) s = (Ok x, s') ∧
          OrderedSet.popitem true s = (Ok x, s') ∧
          last (OrderedSet._items s) = Some x ∧
          OrderedSet._items s = OrderedSet._items s' ++ [x] ∧
          OrderedSet.__len__ s' = (OrderedSet.__len__ s - 1)%Z ∧
          OrderedSet.__contains__ s' x = false ∧
          (∀ y, y ≠ x → OrderedSet.index s' y = OrderedSet.index s y) ∧
          position_inv s'.
Proof.
  intros Hs Hne. pose proof Hs as [Hwf Hinv].
  destruct (ordered_pop_last_position_inv s Hs Hne) as (x & s' & Hpop & Hlast & Hs').
  pose proof Hlast as [front Hfront]%last_Some.
  set (n := length front).
  assert (norm_index (OrderedSet._items s) (-1) = Some n) as Hnorm.
  { unfold norm_index, len. rewrite Hfront, length_app. simpl. fold n.
    rewrite (proj2 (Z.leb_le 0 _)) by lia. f_equal. lia. }
  assert (OrderedSet._items s !! n = Some x) as Hx.
  { rewrite Hfront. by apply list_lookup_middle. }
  assert (dict_get x (OrderedSet._map s) = Some (Z.of_nat n)) as Hget.
  { apply Hinv. split; [lia|]. by rewrite Nat2Z.id. }
  assert (dict_contains x (OrderedSet._map s) = true) as Hc.
  { unfold dict_contains. by rewrite Hget. }
  pose proof (ordered_pop_valid (-1) s n x Hnorm Hx Hc) as Hpop'.
  rewrite Hpop in Hpop'. injection Hpop' as Hs'eq.
  exists x, s'. split_and!; [done| |done| | | | |done].
  - rewrite <- Hpop. unfold OrderedSet.popitem, OrderedSet.pop. done.
  - rewrite Hs'eq. cbn [OrderedSet._items]. rewrite Hfront. unfold n.
    by rewrite delete_middle, app_nil_r.
  - rewrite Hs'eq. unfold OrderedSet.__len__, len. cbn [OrderedSet._map].
    assert (length (dict_keys (dict_remove x (OrderedSet._map s))) =
            length (dict_keys (OrderedSet._map s)) - 1)%nat as Hlen.
    { rewrite dict_keys_remove by done.
      assert (x ∈ dict_keys (OrderedSet._map s)) as Hin.
      { apply dict_contains_true. exact Hc. }
      apply list_elem_of_lookup in Hin as [k Hk].
      rewrite (filter_ne_delete _ k x Hwf Hk), length_delete; [done|].
      by eexists. }
    unfold dict_keys in Hlen. rewrite !length_fmap in Hlen.
    assert (0 < length (OrderedSet._map s))%nat.
    { destruct (OrderedSet._map s); [done|simpl; lia]. }
    lia.
  - rewrite Hs'eq. unfold OrderedSet.__contains__, dict_contains.
    cbn [OrderedSet._map]. by rewrite dict_get_remove, decide_True.
  - intros y Hy. rewrite Hs'eq. unfold OrderedSet.index. cbn [OrderedSet._map].
    by rewrite dict_get_remove, decide_False.
Qed.
End popping.

(** ** [move_to_end] and the updates that rebuild the container *)

Section rebuilding.
Context {T : Type} `{EqDecision T}.
Implicit Types (key x : T) (l other : list T) (sets : list (list T)).

Lemma dict_update_fresh {V} (d l : dict T V) :
  dict_wf (d ++ l) → dict_update d l = d ++ l.
Proof.
  unfold dict_update. revert d. induction l as [|[k v] l IH]; intros d Hwf; simpl.
  - by rewrite app_nil_r.
  - rewrite dict_setitem_fresh.
    + rewrite IH; rewrite <- app_assoc; done.
    + unfold dict_wf, dict_keys in Hwf. rewrite fmap_app in Hwf.
      apply NoDup_app in Hwf as (_ & Hd & _). intros Hin.
      apply (Hd k Hin). simpl. left.
Qed.

Lemma update_items_NoDup l (s : OrderedSet.t T) :
  NoDup l →
  OrderedSet._update_items l s = (Ok tt, OrderedSet.mk l (enumerate l)).
Proof.
  intros Hnd. unfold OrderedSet._update_items, OrderedSet.set_items,
    OrderedSet.set_map. step_py. do 2 f_equal.
  apply (dict_update_fresh []). simpl. unfold dict_wf.
  fold (enumerate l). by rewrite dict_keys_enumerate.
Qed.

Lemma first_occurrences_filter (P : T → Prop) `{∀ x, Decision (P x)} l :
  first_occurrences (filter P l) = filter P (first_occurrences l).
Proof.
  induction l as [|x l IH]; [done|]. simpl. rewrite !filter_cons.
  destruct (decide (P x)) as [HP|HP]; simpl.
  - f_equal. rewrite IH, !list_filter_filter. apply list_filter_iff. tauto.
  - rewrite IH. symmetry. apply list_filter_filter_l. intros y Hy ->. done.
Qed.

Lemma canonical_iter (o : OrderedSet.t T) :
  canonical o → OrderedSet.__iter__ o = OrderedSet._items o.
Proof.
  intros [_ Hm]. unfold OrderedSet.__iter__. rewrite Hm. apply dict_keys_enumerate.
Qed.

(** X13. [StableSet.move_to_end] puts a key of the set last, the other
    elements keeping their order; for a key that is not in the set it
    raises [KeyError] and leaves the set as it was. *)
Theorem stable_move_to_end key (s : StableSet.t T) :
  dict_wf (StableSet._map s) →
  (StableSet.__contains__ s key = true →
     ∃ s', StableSet.move_to_end key s = (Ok tt, s') ∧
           StableSet.__iter__ s' =
             filter (λ y, y ≠ key) (StableSet.__iter__ s) ++ [key] ∧
           dict_wf (StableSet._map s')) ∧
  (StableSet.__contains__ s key = false →
     StableSet.move_to_end key s = (Raise KeyError, s)).
Proof.
  intros Hwf. unfold StableSet.move_to_end, StableSet.__contains__, dict_delitem.
  step_py. split; intros ->; [|done].
  assert (dict_keys (dict_setitem key tt (dict_remove key (StableSet._map s)))
          = filter (λ y, y ≠ key) (StableSet.__iter__ s) ++ [key]) as Hk.
  { rewrite dict_keys_setitem, dict_keys_remove by done. unfold add_key.
    rewrite decide_False; [done|]. rewrite list_elem_of_filter. by intros [? _]. }
  eexists. split; [done|]. split; [exact Hk|].
  unfold dict_wf. cbn [StableSet._map]. rewrite Hk.
  apply NoDup_app. split_and!.
  - by apply NoDup_filter.
  - intros y [Hy _]%list_elem_of_filter ->%list_elem_of_singleton. done.
  - apply NoDup_singleton.
Qed.

(** X14. [OrderedSet.move_to_end] on an OrderedSet that satisfies the
    position invariant: a key of the set is taken from its position and
    appended, so it gets the last index and the invariant holds
    afterwards; for a key that is not in the set it raises [KeyError] and
    leaves the set as it was. *)
Theorem ordered_move_to_end key (s : OrderedSet.t T) :
  position_inv s →
  (∀ i, OrderedSet.index s key = Ok i →
     ∃ s', OrderedSet.move_to_end key s = (Ok tt, s') ∧
           position_inv s' ∧
           OrderedSet._items s' = delete (Z.to_nat i) (OrderedSet._items s) ++ [key] ∧
           OrderedSet.index s' key = Ok (len (OrderedSet._items s) - 1)%Z) ∧
  (OrderedSet.__contains__ s key = false →
     OrderedSet.move_to_end key s = (Raise KeyError, s)).
Proof.
  intros Hs. split.
  - intros i Hi%index_Ok.
    pose proof (position_inv_lt s key i Hs Hi) as Hlt.
    pose proof (discard_position_inv key s Hs) as Hs1.
    unfold OrderedSet.move_to_end. unfold bind at 1, get at 1.
    unfold OrderedSet.__contains__, dict_contains. rewrite Hi.
    unfold bind at 1. rewrite discard_run in * by done. rewrite Hi in *.
    cbn [snd] in Hs1. set (s1 := OrderedSet.mk _ _) in *.
    pose proof (add_position_inv key s1 Hs1) as Hs2.
    assert (dict_get key (OrderedSet._map s1) = None) as Hnone.
    { unfold s1. cbn [OrderedSet._map]. destruct Hs as [Hwf _].
      by rewrite dict_get_fmap, dict_get_remove, decide_True. }
    unfold bind at 1. rewrite add_run in *. rewrite Hnone in *.
    cbn [snd] in Hs2. eexists. split; [done|]. split; [exact Hs2|].
    split; [done|]. apply index_Ok. cbn [OrderedSet._map].
    rewrite dict_get_setitem, decide_True by done. f_equal.
    unfold s1. cbn [OrderedSet._items]. unfold len in *.
    rewrite length_delete; [lia|]. apply lookup_lt_is_Some_2. lia.
  - intros Hc. unfold OrderedSet.move_to_end. unfold bind, get. by rewrite Hc.
Qed.

(** X15. [difference_update] keeps the elements that are in none of the
    arguments, in the order they had, and leaves the container that
    [difference] returns: always for a StableSet; for an OrderedSet with
    distinct items it rebuilds the map from the positions (whatever the
    map was), which gives the result of [difference] when the set was well
    formed. *)
Theorem difference_update_rebuilds sets :
  (∀ b (s : StableSet.t T), ∃ s',
     StableSet.difference_update sets s = (Ok tt, s') ∧
     Stable b s' = difference (Stable b s) sets ∧
     (dict_wf (StableSet._map s) →
      StableSet.__iter__ s' =
        filter (λ x, x ∉ concat sets) (StableSet.__iter__ s))) ∧
  (∀ o : OrderedSet.t T, NoDup (OrderedSet._items o) → ∃ o',
     OrderedSet.difference_update sets o = (Ok tt, o') ∧
     OrderedSet._items o' = filter (λ x, x ∉ concat sets) (OrderedSet._items o) ∧
     canonical o' ∧
     (canonical o → Ordered o' = difference (Ordered o) sets)).
Proof.
  split.
  - intros b s. eexists. split; [done|].
    assert (filter (λ x, x ∉ concat sets) (StableSet.__iter__ s) =
            match sets with
            | [] => StableSet.__iter__ s
            | _ => filter (λ x, x ∉ concat sets) (StableSet.__iter__ s)
            end) as Hsets.
    { destruct sets; [|done]. apply filter_all. intros; apply not_elem_of_nil. }
    split.
    + unfold difference. cbn [__iter__ type]. rewrite <- Hsets.
      destruct b; cbn [new]; rewrite stable_init; f_equal; f_equal;
        rewrite <- dict_keys_fromkeys with (v := tt); apply dict_unit_keys.
    + intros Hwf. unfold StableSet.__iter__ at 1. cbn [StableSet._map].
      rewrite dict_keys_fromkeys. apply first_occurrences_NoDup.
      by apply NoDup_filter.
  - intros o Hnd. unfold OrderedSet.difference_update. unfold bind, get.
    rewrite update_items_NoDup by (by apply NoDup_filter).
    eexists. split; [done|]. split; [done|].
    split; [split; [by apply NoDup_filter|done]|].
    intros Hcan. unfold difference. cbn [__iter__ type new].
    rewrite init_canonical, (canonical_iter o Hcan).
    assert (first_occurrences
              match sets with
              | [] => OrderedSet._items o
              | _ => filter (λ x, x ∉ concat sets) (OrderedSet._items o)
              end = filter (λ x, x ∉ concat sets) (OrderedSet._items o)) as ->; [|done].
    destruct sets.
    + rewrite first_occurrences_NoDup by done. symmetry. apply filter_all.
      intros; apply not_elem_of_nil.
    + apply first_occurrences_NoDup. by apply NoDup_filter.
Qed.

(** X16. [intersection_update] keeps the elements that are in the
    argument, in the order they had, and leaves the container that
    [intersection] returns: always for a StableSet; for an OrderedSet with
    distinct items it rebuilds the map from the positions, which gives the
    result of [intersection] when the set was well formed. *)
Theorem intersection_update_rebuilds other :
  (∀ b (s : StableSet.t T), ∃ s',
     StableSet.intersection_update other s = (Ok tt, s') ∧
     Stable b s' = intersection (Stable b s) [other] ∧
     (dict_wf (StableSet._map s) →
      StableSet.__iter__ s' = filter (λ x, x ∈ other) (StableSet.__iter__ s))) ∧
  (∀ o : OrderedSet.t T, NoDup (OrderedSet._items o) → ∃ o',
     OrderedSet.intersection_update other o = (Ok tt, o') ∧
     OrderedSet._items o' = filter (λ x, x ∈ other) (OrderedSet._items o) ∧
     canonical o' ∧
     (canonical o → Ordered o' = intersection (Ordered o) [other])).
Proof.
  assert (∀ l, filter (λ item, Forall (λ s, item ∈ s) [other]) l =
               filter (λ x, x ∈ other) l) as Hall.
  { intros l. apply list_filter_iff. intros x. rewrite Forall_singleton. done. }
  split.
  - intros b s. eexists. split; [done|]. split.
    + unfold intersection. cbn [__iter__ type]. rewrite Hall.
      destruct b; cbn [new]; rewrite stable_init; f_equal; f_equal;
        rewrite <- dict_keys_fromkeys with (v := tt); apply dict_unit_keys.
    + intros Hwf. unfold StableSet.__iter__ at 1. cbn [StableSet._map].
      rewrite dict_keys_fromkeys. apply first_occurrences_NoDup.
      by apply NoDup_filter.
  - intros o Hnd. unfold OrderedSet.intersection_update. unfold bind, get.
    rewrite update_items_NoDup by (by apply NoDup_filter).
    eexists. split; [done|]. split; [done|].
    split; [split; [by apply NoDup_filter|done]|].
    intros Hcan. unfold intersection. cbn [__iter__ type new].
    rewrite init_canonical, (canonical_iter o Hcan), Hall.
    by rewrite first_occurrences_NoDup by (by apply NoDup_filter).
Qed.
End rebuilding.

Section symmetric_update.
Context {T : Type} `{EqDecision T}.
Implicit Types (key x : T) (l other : list T).

Lemma first_occurrences_app_r l1 l2 :
  first_occurrences (l1 ++ first_occurrences l2) = first_occurrences (l1 ++ l2).
Proof. by rewrite !first_occurrences_app, first_occurrences_idemp. Qed.

Lemma symmetric_difference_items (self : object T) other :
  symmetric_difference self other =
  new (type self)
      (Some (filter (λ x, x ∉ other) (__iter__ self) ++
             filter (λ x, x ∉ __iter__ self) other)).
Proof.
  unfold symmetric_difference, union, difference.
  rewrite !type_new, !iter_new. apply new_ext. cbn [concat].
  rewrite !app_nil_r.
  rewrite (first_occurrences_filter _ (first_occurrences (__iter__ self))),
    (first_occurrences_filter _ (first_occurrences other)),
    !first_occurrences_idemp, <- !first_occurrences_filter.
  by rewrite first_occurrences_app_l, first_occurrences_app_r.
Qed.

(** X17. [symmetric_difference_update] leaves the container that
    [symmetric_difference] returns: always for a StableSet; for a well
    formed OrderedSet when the argument has no duplicates.  The items of
    an OrderedSet afterwards are those that are not in the argument, in
    their order, followed by the elements of the argument that were not in
    the set, as often as the argument holds them. *)
Theorem symmetric_difference_update_rebuilds other :
  (∀ b (s : StableSet.t T), ∃ s',
     StableSet.symmetric_difference_update other s = (Ok tt, s') ∧
     Stable b s' = symmetric_difference (Stable b s) other ∧
     StableSet.__iter__ s' =
       first_occurrences
         (filter (λ x, x ∉ other) (StableSet.__iter__ s) ++
          filter (λ x, x ∉ StableSet.__iter__ s) other)) ∧
  (∀ o : OrderedSet.t T, ∃ o',
     OrderedSet.symmetric_difference_update other o = (Ok tt, o') ∧
     OrderedSet._items o' =
       filter (λ x, x ∉ other) (OrderedSet._items o) ++
       filter (λ x, x ∉ OrderedSet.__iter__ o) other ∧
     (canonical o → NoDup other →
      canonical o' ∧ Ordered o' = symmetric_difference (Ordered o) other)).
Proof.
  split.
  - intros b s.
    assert (filter (λ item, StableSet.__contains__ s item = false) other =
            filter (λ x, x ∉ StableSet.__iter__ s) other) as Hadd.
    { apply list_filter_iff. intros x. apply dict_contains_false. }
    unfold StableSet.symmetric_difference_update. step_py. rewrite Hadd.
    eexists. split; [reflexivity|]. split.
    + rewrite symmetric_difference_items. cbn [__iter__ type].
      destruct b; cbn [new]; rewrite stable_init; f_equal; f_equal;
        rewrite <- dict_keys_fromkeys with (v := tt); apply dict_unit_keys.
    + unfold StableSet.__iter__ at 1. cbn [StableSet._map].
      by rewrite dict_keys_fromkeys.
  - intros o.
    assert (filter (λ item, OrderedSet.__contains__ o item = false) other =
            filter (λ x, x ∉ OrderedSet.__iter__ o) other) as Hadd.
    { apply list_filter_iff. intros x. apply dict_contains_false. }
    unfold OrderedSet.symmetric_difference_update. unfold bind at 1, get at 1.
    rewrite Hadd.
    unfold OrderedSet._update_items, OrderedSet.set_items, OrderedSet.set_map.
    step_py. eexists. split; [done|]. split; [done|].
    intros Hcan Hother. pose proof Hcan as [Hnd _].
    rewrite (canonical_iter o Hcan).
    assert (NoDup (filter (λ x, x ∉ other) (OrderedSet._items o) ++
                   filter (λ x, x ∉ OrderedSet._items o) other)) as Hnew.
    { apply NoDup_app. split_and!; try by apply NoDup_filter.
      intros x [Hx _]%list_elem_of_filter [_ Hx']%list_elem_of_filter. done. }
    assert (dict_update [] (imap (λ idx item, (item, Z.of_nat idx))
              (filter (λ x, x ∉ other) (OrderedSet._items o) ++
               filter (λ x, x ∉ OrderedSet._items o) other)) =
            enumerate (filter (λ x, x ∉ other) (OrderedSet._items o) ++
                       filter (λ x, x ∉ OrderedSet._items o) other)) as ->.
    { apply (dict_update_fresh []). simpl. unfold dict_wf.
      fold (enumerate (filter (λ x, x ∉ other) (OrderedSet._items o) ++
                       filter (λ x, x ∉ OrderedSet._items o) other)).
      by rewrite dict_keys_enumerate. }
    split; [by split|].
    rewrite symmetric_difference_items. cbn [__iter__ type new].
    by rewrite init_canonical, (canonical_iter o Hcan), first_occurrences_NoDup.
Qed.
End symmetric_update.

(** ** Comparisons and the set algebra that returns a new container *)

Section comparisons.
Context {T : Type} `{EqDecision T}.
Implicit Types (self other : setlike T) (xs ys : list T) (x : T).

Lemma isprefix_loop_prefix xs ys :
  (length xs ≤ length ys)%nat →
  isprefix_loop xs ys = true ↔ xs `prefix_of` ys.
Proof.
  revert ys. induction xs as [|x xs IH]; intros ys Hlen.
  - split; [intros _; apply prefix_nil|by destruct ys].
  - destruct ys as [|y ys]; simpl in *; [lia|].
    case_decide as Hxy.
    + subst y. rewrite IH by lia. split.
      * by apply prefix_cons.
      * by apply prefix_cons_inv_2.
    + split; [done|]. by intros ?%prefix_cons_inv_1.
Qed.

(** X18. [isprefix] answers whether the elements of [self], in order,
    are the first elements of [other]; [ispostfix(self, other)] answers
    whether the elements of [other] are the first elements of [self]. *)
Theorem isprefix_prefix_of self other :
  (isprefix self other = true ↔ sl_iter self `prefix_of` sl_iter other) ∧
  (ispostfix self other = true ↔ sl_iter other `prefix_of` sl_iter self).
Proof.
  assert (∀ a b : setlike T,
            isprefix a b = true ↔ sl_iter a `prefix_of` sl_iter b) as Hpre.
  { intros a b. unfold isprefix. rewrite !sl_len_iter. unfold len.
    destruct (Z.gtb_spec (Z.of_nat (length (sl_iter a)))
                         (Z.of_nat (length (sl_iter b)))) as [Hgt|Hle].
    - split; [done|]. intros Hp%prefix_length. lia.
    - apply isprefix_loop_prefix. lia. }
  split; [apply Hpre|apply (Hpre other self)].
Qed.

Lemma sl_contains_iter (a : setlike T) x :
  sl_contains a x = true ↔ x ∈ sl_iter a.
Proof.
  destruct a as [o|l]; simpl.
  - apply contains_iter.
  - apply bool_decide_eq_true.
Qed.

Lemma forallb_contains (a : setlike T) xs :
  forallb (λ item, sl_contains a item) xs = true ↔ ∀ x, x ∈ xs → x ∈ sl_iter a.
Proof.
  rewrite forallb_forall. split.
  - intros Hall x Hx. apply sl_contains_iter, Hall. by apply list_elem_of_In.
  - intros Hall x Hx. apply sl_contains_iter, Hall. by apply list_elem_of_In.
Qed.

Lemma NoDup_subset_length xs ys :
  NoDup xs → (∀ x, x ∈ xs → x ∈ ys) → (length xs ≤ length ys)%nat.
Proof.
  intros Hnd Hsub. apply submseteq_length. by apply NoDup_submseteq.
Qed.

(** X19. [issubset] answers true exactly when [self] is not longer than
    [other] and every element of [self] is in [other]; [issuperset]
    answers true exactly when [other] is not longer than [self] and every
    element of [other] is in [self].  The comparison of lengths changes
    nothing when the smaller side has no duplicates, as every container
    has; a sequence with duplicates, as [other] of [issuperset], can be
    longer than a set that holds all its elements. *)
Theorem issubset_elements self other :
  (issubset self other = true ↔
     (length (sl_iter self) ≤ length (sl_iter other))%nat ∧
     ∀ x, x ∈ sl_iter self → x ∈ sl_iter other) ∧
  (issuperset self other = true ↔
     (length (sl_iter other) ≤ length (sl_iter self))%nat ∧
     ∀ x, x ∈ sl_iter other → x ∈ sl_iter self) ∧
  (NoDup (sl_iter self) →
     (issubset self other = true ↔ ∀ x, x ∈ sl_iter self → x ∈ sl_iter other)) ∧
  (NoDup (sl_iter other) →
     (issuperset self other = true ↔ ∀ x, x ∈ sl_iter other → x ∈ sl_iter self)).
Proof.
  assert (issubset self other = true ↔
            (length (sl_iter self) ≤ length (sl_iter other))%nat ∧
            ∀ x, x ∈ sl_iter self → x ∈ sl_iter other) as Hsub.
  { unfold issubset. rewrite !sl_len_iter. unfold len.
    destruct (Z.gtb_spec (Z.of_nat (length (sl_iter self)))
                         (Z.of_nat (length (sl_iter other)))) as [Hgt|Hle].
    - split; [done|]. lia.
    - rewrite forallb_contains. split; [intros ?; split; [lia|done]|by intros [_ ?]]. }
  assert (issuperset self other = true ↔
            (length (sl_iter other) ≤ length (sl_iter self))%nat ∧
            ∀ x, x ∈ sl_iter other → x ∈ sl_iter self) as Hsup.
  { unfold issuperset. rewrite !sl_len_iter. unfold len.
    destruct (Z.ltb_spec (Z.of_nat (length (sl_iter self)))
                         (Z.of_nat (length (sl_iter other)))) as [Hlt|Hge].
    - split; [done|]. lia.
    - rewrite forallb_contains. split; [intros ?; split; [lia|done]|by intros [_ ?]]. }
  split_and!; [done|done| |].
  - intros Hnd. rewrite Hsub. split; [by intros [_ ?]|].
    intros Hall. split; [|done]. by apply NoDup_subset_length.
  - intros Hnd. rewrite Hsup. split; [by intros [_ ?]|].
    intros Hall. split; [|done]. by apply NoDup_subset_length.
Qed.

(** [self[j]] is the element number [j] of the iteration for a sequence,
    for a StableSet of a length [islice] accepts, and for a well-formed
    OrderedSet. *)
Lemma sl_getitem_iter self :
  match self with
  | Seq _ => True
  | Obj (Stable _ s) => (StableSet.__len__ s ≤ sys_maxsize)%Z
  | Obj (Ordered o) => canonical o
  end →
  ∀ j x, sl_iter self !! j = Some x → sl_getitem self (Z.of_nat j) = Ok x.
Proof.
  intros Hself j x Hx. destruct self as [[b s|o]|l]; simpl in *.
  - pose proof (lookup_lt_Some _ _ _ Hx) as Hlt.
    assert (StableSet.__len__ s = len (StableSet.__iter__ s)) as Hlen.
    { unfold StableSet.__len__, StableSet.__iter__, len, dict_keys.
      by rewrite length_fmap. }
    rewrite stable_getitem_lookup.
    + by rewrite Nat2Z.id, Hx.
    + rewrite Hlen in Hself. unfold len in Hself. lia.
  - rewrite (canonical_iter o Hself) in Hx. unfold OrderedSet.__getitem__.
    apply list_getitem_nonneg; [lia|]. by rewrite Nat2Z.id.
  - apply list_getitem_nonneg; [lia|]. by rewrite Nat2Z.id.
Qed.

(** X20. For a non-empty [self] whose item number [j] is the element
    number [j] of its iteration (a sequence, or a well-formed container),
    [isorderedsubset] returns, without raising, whether the elements of
    [self] occur in [other] in the same order, other elements allowed in
    between; [isorderedsuperset] is the same question with the sides
    exchanged. *)
Theorem isorderedsubset_subsequence self other :
  sl_iter self ≠ [] →
  (∀ j x, sl_iter self !! j = Some x → sl_getitem self (Z.of_nat j) = Ok x) →
  ∃ b, isorderedsubset self other = Ok b ∧
       isorderedsuperset other self = Ok b ∧
       (b = true ↔ sl_iter self `sublist_of` sl_iter other).
Proof.
  intros Hne Hget.
  destruct (isorderedsubset_nonempty self other Hne Hget) as (b & Hb & Hsub).
  by exists b.
Qed.
End comparisons.

Section new_containers.
Context {T : Type} `{EqDecision T}.
Implicit Types (self : object T) (sets : list (list T)) (x : T).

(** X21. [difference] and [intersection] return a container of the class
    of [self] that holds, in the order of [self], the elements of [self]
    that are in none, respectively in all, of the arguments; without
    arguments both return a copy. *)
Theorem difference_intersection_order self sets :
  NoDup (__iter__ self) →
  type (difference self sets) = type self ∧
  type (intersection self sets) = type self ∧
  __iter__ (difference self sets) =
    filter (λ x, x ∉ concat sets) (__iter__ self) ∧
  __iter__ (intersection self sets) =
    filter (λ x, Forall (λ s, x ∈ s) sets) (__iter__ self) ∧
  difference self [] = copy self ∧
  intersection self [] = copy self.
Proof.
  intros Hnd. unfold difference, intersection, copy.
  rewrite !type_new, !iter_new. split_and!; try done.
  - destruct sets.
    + rewrite first_occurrences_NoDup by done. symmetry. apply filter_all.
      intros; apply not_elem_of_nil.
    + apply first_occurrences_NoDup. by apply NoDup_filter.
  - destruct sets.
    + rewrite first_occurrences_NoDup by done. symmetry. apply filter_all.
      intros; apply Forall_nil_2.
    + apply first_occurrences_NoDup. by apply NoDup_filter.
Qed.

(** X22. Two well-formed OrderedSets are equal for [OrderedSet.__eq__]
    exactly when they hold the same elements in the same order, in which
    case they are the same state. *)
Theorem ordered_eq_same_order (a b : OrderedSet.t T) :
  canonical a → canonical b →
  (OrderedSet.__eq__ a (OrderedSet.__len__ b) (OrderedSet.__iter__ b) = true ↔
   OrderedSet._items a = OrderedSet._items b) ∧
  (OrderedSet._items a = OrderedSet._items b ↔ a = b).
Proof.
  intros Ha Hb. pose proof Ha as [_ Hma]. pose proof Hb as [_ Hmb].
  split.
  - unfold OrderedSet.__eq__. rewrite (canonical_iter b Hb).
    rewrite andb_true_iff, !bool_decide_eq_true. split; [by intros [_ ?]|].
    intros Heq. split; [|done]. unfold OrderedSet.__len__.
    by rewrite Hma, Hmb, Heq.
  - split; [|by intros ->]. intros Heq. destruct a as [ia ma], b as [ib mb].
    simpl in *. by subst.
Qed.
End new_containers.

(** ** Operators *)

Section operators.
Context {T : Type} `{EqDecision T}.
Implicit Types (self : object T) (a : setlike T) (l : list T) (x : T).

Lemma as_set_contains cls a x :
  __contains__ (as_set cls a) x = false ↔ x ∉ sl_iter a.
Proof.
  rewrite <- not_true_iff_false, contains_iter. destruct a as [o|l]; simpl; [done|].
  by rewrite iter_new, elem_of_first_occurrences.
Qed.

Lemma filter_not_contains self l :
  filter (λ value, __contains__ self value = false) l =
  filter (λ x, x ∉ __iter__ self) l.
Proof.
  apply list_filter_iff. intros x. by rewrite <- not_true_iff_false, contains_iter.
Qed.

Lemma sub_difference self a :
  __sub__ self (Operand a) = Some (difference self [sl_iter a]).
Proof.
  unfold __sub__, difference. do 3 f_equal. apply list_filter_iff. intros x.
  rewrite as_set_contains. cbn [concat]. by rewrite app_nil_r.
Qed.

(** X23. With a container or a sequence on the right, the operators give
    what the methods give: [self - other] is [self.difference(other)],
    [self | other] is [self.union(other)], [self & other] is
    [self.intersection(other)] and [self ^ other] is
    [self.symmetric_difference(other)].  With an operand that is not
    iterable, [-], [|] and [^] return [NotImplemented] and [&] raises
    [TypeError]. *)
Theorem operators_are_methods self a :
  __sub__ self (Operand a) = Some (difference self [sl_iter a]) ∧
  __or__ self (Operand a) = Some (union self [sl_iter a]) ∧
  __and__ self (Operand a) = Ok (intersection self [sl_iter a]) ∧
  __xor__ self (Operand a) = Some (symmetric_difference self (sl_iter a)) ∧
  __sub__ self NonIterable = None ∧
  __or__ self NonIterable = None ∧
  __xor__ self NonIterable = None ∧
  __and__ self NonIterable = Raise TypeError.
Proof.
  split_and!; try done.
  - apply sub_difference.
  - unfold __or__, union. cbn [concat]. by rewrite app_nil_r.
  - unfold __xor__. rewrite sub_difference.
    assert (∃ d2, sub_from a self = Some d2 ∧
                  first_occurrences (__iter__ d2) =
                  first_occurrences (filter (λ x, x ∉ __iter__ self) (sl_iter a)))
      as (d2 & -> & Hd2).
    { destruct a as [o|l]; cbn [sub_from sl_iter].
      - eexists. split; [reflexivity|]. cbn [as_set]. rewrite iter_new.
        by rewrite filter_not_contains, first_occurrences_idemp.
      - eexists. split; [reflexivity|]. cbn [as_set]. rewrite !iter_new.
        rewrite filter_not_contains, first_occurrences_idemp.
        by rewrite <- first_occurrences_filter, first_occurrences_idemp. }
    unfold __or__. cbn [sl_iter]. f_equal.
    rewrite symmetric_difference_items. unfold difference.
    rewrite type_new, iter_new. apply new_ext. cbn [concat].
    rewrite first_occurrences_app_l, <- first_occurrences_app_r, Hd2.
    rewrite first_occurrences_app_r. do 2 f_equal.
    apply list_filter_iff. intros x. by rewrite app_nil_r.
Qed.

(** X24. With a sequence on the left, which has no operators of its own,
    the reflected operators build a container of the class of [self] from
    the sequence and give what its methods give: [other - self] is its
    [difference(self)], [other | self] its [union(self)] and
    [other ^ self] its [symmetric_difference(self)], so the elements of
    the sequence come first.  With an operand that is not iterable they
    return [NotImplemented]. *)
Theorem reflected_operators_are_methods self l :
  let other := new (type self) (Some l) in
  __rsub__ self (Operand (Seq l)) = Some (difference other [__iter__ self]) ∧
  __ror__ self (Operand (Seq l)) = Some (union other [__iter__ self]) ∧
  __rxor__ self (Operand (Seq l)) =
    Some (symmetric_difference other (__iter__ self)) ∧
  __rsub__ self NonIterable = None ∧
  __ror__ self NonIterable = None ∧
  __rxor__ self NonIterable = None.
Proof.
  intros other.
  assert (__rsub__ self (Operand (Seq l)) =
          Some (difference other [__iter__ self])) as Hrsub.
  { unfold __rsub__, difference, other. cbn [as_set]. rewrite type_new.
    do 3 f_equal. rewrite filter_not_contains. apply list_filter_iff.
    intros x. cbn [concat]. by rewrite app_nil_r. }
  split_and!; try done.
  - unfold __ror__, union, other. rewrite type_new, iter_new. f_equal.
    apply new_ext. cbn [sl_iter concat].
    by rewrite app_nil_r, first_occurrences_app_l.
  - unfold __rxor__. cbn [sub_from]. rewrite Hrsub, sub_difference.
    unfold __or__. cbn [sl_iter]. f_equal.
    rewrite symmetric_difference_items. unfold difference, other.
    rewrite !type_new, !iter_new. apply new_ext. cbn [concat sl_iter].
    rewrite first_occurrences_app_l, first_occurrences_app_r.
    rewrite !app_nil_r. do 2 f_equal.
    apply list_filter_iff. intros x. by rewrite elem_of_first_occurrences.
Qed.
End operators.

(** ** The properties with a precondition, on containers of integers *)

Section instances.
Local Open Scope Z_scope.

Local Abbreviation s123 := (StableSet.__init__ (Some [1; 2; 3])).
Local Abbreviation o123 := (OrderedSet.__init__ (Some [1; 2; 3])).

Local Lemma s123_wf : dict_wf (StableSet._map s123).
Proof. exact (new_wf cls_StableSet [1; 2; 3]). Qed.

Local Lemma s123_len : StableSet.__len__ s123 ≤ sys_maxsize.
Proof. vm_compute. discriminate. Qed.

Local Lemma o123_inv : position_inv o123.
Proof. apply canonical_position_inv, new_canonical. Qed.

Lemma ordered_add_keeps_positions_witness :
  position_inv o123 ∧
  OrderedSet._items o123 `prefix_of` OrderedSet._items (OrderedSet.add 5 o123).2.
Proof.
  split; [exact o123_inv|].
  exact (proj1 (proj2 (ordered_add_keeps_positions 5 o123 o123_inv))).
Defined.

Lemma ordered_update_returns_index_of_last_witness :
  position_inv o123 ∧
  ∃ i s', OrderedSet.update (Iterable ([3; 1; 5; 1] ++ [4])) o123 = (Ok i, s') ∧
          position_inv s' ∧
          OrderedSet.index s' 4 = Ok i ∧
          OrderedSet.__getitem__ s' i = Ok 4.
Proof.
  split; [exact o123_inv|].
  exact (ordered_update_returns_index_of_last [3; 1; 5; 1] 4 o123 o123_inv).
Defined.

Lemma stable_index_getitem_witness :
  StableSet.__len__ s123 ≤ sys_maxsize ∧
  dict_wf (StableSet._map s123) ∧
  ∀ i x, StableSet.__getitem__ s123 i = Ok x → StableSet.index s123 x = Ok i.
Proof.
  split_and!; [exact s123_len|exact s123_wf|].
  exact (proj2 (proj2 (stable_index_getitem s123 s123_len s123_wf))).
Defined.

Lemma ordered_index_getitem_witness :
  position_inv o123 ∧
  ∀ i x, OrderedSet.__getitem__ o123 i = Ok x →
         OrderedSet.index o123 x =
           Ok (if 0 <=? i then i else len (OrderedSet._items o123) + i).
Proof.
  split; [exact o123_inv|].
  exact (proj1 (ordered_index_getitem o123 o123_inv)).
Defined.

Lemma stable_discard_removes_witness :
  dict_wf (StableSet._map s123) ∧
  ∃ s', StableSet.discard 2 s123 = (Ok tt, s') ∧
        StableSet.__iter__ s' = filter (λ y, y ≠ 2) (StableSet.__iter__ s123) ∧
        StableSet.__contains__ s' 2 = false ∧
        dict_wf (StableSet._map s') ∧
        (StableSet.__contains__ s123 2 = false → s' = s123).
Proof.
  split; [exact s123_wf|]. exact (stable_discard_removes 2 s123 s123_wf).
Defined.

Lemma stable_pop_valid_witness :
  dict_wf (StableSet._map s123) ∧
  StableSet.__len__ s123 ≤ sys_maxsize ∧
  -1 ≤ 1 ∧
  norm_index (StableSet.__iter__ s123) 1 = Some 1%nat ∧
  StableSet.__iter__ s123 !! 1%nat = Some 2 ∧
  ∃ s', StableSet.pop 1 s123 = (Ok 2, s') ∧
        StableSet.__iter__ s' = delete 1%nat (StableSet.__iter__ s123) ∧
        StableSet.__contains__ s' 2 = false.
Proof.
  assert (-1 ≤ 1) as Hidx by lia.
  split_and!; [exact s123_wf|exact s123_len|exact Hidx|reflexivity|reflexivity|].
  exact (stable_pop_valid s123 1 1%nat 2 s123_wf s123_len Hidx eq_refl eq_refl).
Defined.

Lemma stable_popitem_ends_witness :
  dict_wf (StableSet._map s123) ∧
  ∀ x rest, StableSet.__iter__ s123 = x :: rest →
    ∃ s', StableSet.popitem false s123 = (Ok x, s') ∧ StableSet.__iter__ s' = rest.
Proof.
  split; [exact s123_wf|]. exact (proj1 (stable_popitem_ends s123 s123_wf)).
Defined.

Lemma ordered_pop_element_witness :
  position_inv o123 ∧
  ∀ n, norm_index (OrderedSet._items o123) (-2) = Some n →
    ∃ x s', OrderedSet.pop (-2) o123 = (Ok x, s') ∧
            OrderedSet._items o123 !! n = Some x ∧
            OrderedSet._items s' = delete n (OrderedSet._items o123) ∧
            OrderedSet.__contains__ s' x = false ∧
            ∀ y, y ≠ x → OrderedSet.index s' y = OrderedSet.index o123 y.
Proof.
  split; [exact o123_inv|].
  exact (proj2 (proj2 (ordered_pop_element o123 (-2) o123_inv))).
Defined.

Lemma ordered_pop_last_keeps_invariant_witness :
  position_inv o123 ∧ OrderedSet._items o123 ≠ [] ∧
  ∃ x s', OrderedSet.pop (-1) o123 = (Ok x, s') ∧
          OrderedSet.popitem true o123 = (Ok x, s') ∧
          last (OrderedSet._items o123) = Some x ∧
          OrderedSet._items o123 = OrderedSet._items s' ++ [x] ∧
          OrderedSet.__len__ s' = OrderedSet.__len__ o123 - 1 ∧
          OrderedSet.__contains__ s' x = false ∧
          (∀ y, y ≠ x → OrderedSet.index s' y = OrderedSet.index o123 y) ∧
          position_inv s'.
Proof.
  assert (OrderedSet._items o123 ≠ []) as Hne by discriminate.
  split_and!; [exact o123_inv|exact Hne|].
  exact (ordered_pop_last_keeps_invariant o123 o123_inv Hne).
Defined.

Lemma stable_move_to_end_witness :
  dict_wf (StableSet._map s123) ∧
  (StableSet.__contains__ s123 1 = true →
     ∃ s', StableSet.move_to_end 1 s123 = (Ok tt, s') ∧
           StableSet.__iter__ s' =
             filter (λ y, y ≠ 1) (StableSet.__iter__ s123) ++ [1] ∧
           dict_wf (StableSet._map s')).
Proof.
  split; [exact s123_wf|]. exact (proj1 (stable_move_to_end 1 s123 s123_wf)).
Defined.

Lemma ordered_move_to_end_witness :
  position_inv o123 ∧
  (OrderedSet.__contains__ o123 7 = false →
     OrderedSet.move_to_end 7 o123 = (Raise KeyError, o123)).
Proof.
  split; [exact o123_inv|]. exact (proj2 (ordered_move_to_end 7 o123 o123_inv)).
Defined.

Lemma difference_update_rebuilds_witness :
  let o := OrderedSet.__init__ (Some [1; 2; 3; 4; 5]) in
  NoDup (OrderedSet._items o) ∧
  ∃ o', OrderedSet.difference_update [[2; 4]; [1; 4; 6]] o = (Ok tt, o') ∧
        OrderedSet._items o' =
          filter (λ x, x ∉ concat [[2; 4]; [1; 4; 6]]) (OrderedSet._items o) ∧
        canonical o' ∧
        (canonical o → Ordered o' = difference (Ordered o) [[2; 4]; [1; 4; 6]]).
Proof.
  intros o.
  assert (NoDup (OrderedSet._items o)) as Hnd by apply new_canonical.
  split; [exact Hnd|].
  exact (proj2 (difference_update_rebuilds [[2; 4]; [1; 4; 6]]) o Hnd).
Defined.

Lemma intersection_update_rebuilds_witness :
  let o := OrderedSet.__init__ (Some [1; 4; 3; 5; 7]) in
  NoDup (OrderedSet._items o) ∧
  ∃ o', OrderedSet.intersection_update [9; 7; 1; 3; 2] o = (Ok tt, o') ∧
        OrderedSet._items o' =
          filter (λ x, x ∈ [9; 7; 1; 3; 2]) (OrderedSet._items o) ∧
        canonical o' ∧
        (canonical o → Ordered o' = intersection (Ordered o) [[9; 7; 1; 3; 2]]).
Proof.
  intros o.
  assert (NoDup (OrderedSet._items o)) as Hnd by apply new_canonical.
  split; [exact Hnd|].
  exact (proj2 (intersection_update_rebuilds [9; 7; 1; 3; 2]) o Hnd).
Defined.

Lemma symmetric_difference_update_rebuilds_witness :
  let o := OrderedSet.__init__ (Some [1; 4; 3; 5; 7]) in
  canonical o ∧ NoDup [9; 7; 1; 3; 2] ∧
  ∃ o', OrderedSet.symmetric_difference_update [9; 7; 1; 3; 2] o = (Ok tt, o') ∧
        canonical o' ∧
        Ordered o' = symmetric_difference (Ordered o) [9; 7; 1; 3; 2].
Proof.
  intros o.
  assert (canonical o) as Hcan by apply new_canonical.
  assert (NoDup [9; 7; 1; 3; 2]) as Hnd
    by (change (NoDup (first_occurrences [9; 7; 1; 3; 2]));
        apply NoDup_first_occurrences).
  split_and!; [exact Hcan|exact Hnd|].
  destruct (proj2 (symmetric_difference_update_rebuilds [9; 7; 1; 3; 2]) o)
    as (o' & Hrun & _ & Hres).
  exists o'. split; [exact Hrun|]. exact (Hres Hcan Hnd).
Defined.

Lemma issubset_elements_witness :
  let self := Obj (new cls_StableSet (Some [1; 2; 3])) in
  let other := Seq [1; 2; 3; 4] in
  NoDup (sl_iter self) ∧
  (issubset self other = true ↔ ∀ x, x ∈ sl_iter self → x ∈ sl_iter other).
Proof.
  intros self other.
  assert (NoDup (sl_iter self)) as Hnd
    by (unfold self; cbn [sl_iter]; rewrite iter_new; apply NoDup_first_occurrences).
  split; [exact Hnd|].
  exact (proj1 (proj2 (proj2 (issubset_elements self other))) Hnd).
Defined.

Lemma isorderedsubset_subsequence_witness :
  let self := Obj (new cls_OrderedSet (Some [1; 2; 3])) in
  let other := Seq [7; 1; 2; 3; 4] in
  sl_iter self ≠ [] ∧
  (∀ j x, sl_iter self !! j = Some x → sl_getitem self (Z.of_nat j) = Ok x) ∧
  ∃ b, isorderedsubset self other = Ok b ∧
       isorderedsuperset other self = Ok b ∧
       (b = true ↔ sl_iter self `sublist_of` sl_iter other).
Proof.
  intros self other.
  assert (sl_iter self ≠ []) as Hne by discriminate.
  assert (∀ j x, sl_iter self !! j = Some x → sl_getitem self (Z.of_nat j) = Ok x)
    as Hget by (apply sl_getitem_iter, new_canonical).
  split_and!; [exact Hne|exact Hget|].
  exact (isorderedsubset_subsequence self other Hne Hget).
Defined.

Lemma difference_intersection_order_witness :
  let self := new cls_StableSet (Some [1; 2; 3]) in
  NoDup (__iter__ self) ∧
  __iter__ (difference self [[2]; [3]]) =
    filter (λ x, x ∉ concat [[2]; [3]]) (__iter__ self).
Proof.
  intros self.
  assert (NoDup (__iter__ self)) as Hnd
    by (unfold self; rewrite iter_new; apply NoDup_first_occurrences).
  split; [exact Hnd|].
  exact (proj1 (proj2 (proj2 (difference_intersection_order self [[2]; [3]] Hnd)))).
Defined.

Lemma ordered_eq_same_order_witness :
  let a := OrderedSet.__init__ (Some [1; 3; 2]) in
  let b := OrderedSet.__init__ (Some [1; 2; 3]) in
  canonical a ∧ canonical b ∧
  (OrderedSet.__eq__ a (OrderedSet.__len__ b) (OrderedSet.__iter__ b) = true ↔
   OrderedSet._items a = OrderedSet._items b).
Proof.
  intros a b.
  assert (canonical a) as Ha by apply new_canonical.
  assert (canonical b) as Hb by apply new_canonical.
  split_and!; [exact Ha|exact Hb|].
  exact (proj1 (ordered_eq_same_order a b Ha Hb)).
Defined.
End instances.
